(** * Bill Basket: the price extractor, the frame binarizer and the basket ledger

    A shallow embedding of [src/App.tsx].  JavaScript values are modelled
    as the language defines them:

    - a Number is an IEEE-754 binary64 value, here a [spec_float] of the
      Standard Library with [prec = 53] and [emax = 1024]; every arithmetic
      operator rounds to nearest, ties to even;
    - a String is a sequence of UTF-16 code units, here a [list N];
    - a regular expression is a syntax tree run by a backtracking matcher
      in continuation-passing style, after the ECMAScript specification;
    - React state is passed explicitly: a handler maps the state of the
      render it closes over to the next state. *)

From Stdlib Require Import String Ascii DecimalString DecimalPos DecimalN.
From Stdlib Require Import ZArith NArith List Bool Lia.
From Stdlib Require Import SpecFloat PrimFloat FloatOps.
Import ListNotations.

Local Open Scope Z_scope.

(* ================================================================== *)
(** * JavaScript numbers *)
(* ================================================================== *)

Module JSNumber.

Definition number := spec_float.

Definition prec : Z := 53.
Definition emax : Z := 1024.

Definition NaN : number := S754_nan.

Definition add : number -> number -> number := SFadd prec emax.
Definition sub : number -> number -> number := SFsub prec emax.
Definition mul : number -> number -> number := SFmul prec emax.
Definition div : number -> number -> number := SFdiv prec emax.

(** [x < y] and [x > y]; both are false as soon as an operand is NaN. *)
Definition lt (x y : number) : bool := SFltb x y.
Definition gt (x y : number) : bool := SFltb y x.

Definition isNaN (x : number) : bool :=
  match x with S754_nan => true | _ => false end.

(** The Number value of the decimal [m * 10^e] (with [0 <= m]): the
    binary64 value nearest to the quotient of the two integers
    [m * 10^max(e,0)] and [10^max(-e,0)], ties to even.  This is the
    value of a numeric literal and the value [parseFloat] returns. *)
Definition number_of_decimal (neg : bool) (m e : Z) : number :=
  match m * 10 ^ Z.max e 0 with
  | Zpos p =>
      SFdiv prec emax (S754_finite neg p 0)
                      (S754_finite false (Z.to_pos (10 ^ Z.max (- e) 0)) 0)
  | _ => S754_zero neg
  end.

(** A non-negative decimal literal of the source text. *)
Definition lit (m e : Z) : number := number_of_decimal false m e.

(** An integer converted to a Number. *)
Definition of_Z (z : Z) : number := binary_normalize prec emax z 0 false.

End JSNumber.
Import JSNumber.

(* ================================================================== *)
(** * JavaScript strings *)
(* ================================================================== *)

Module JSString.

(** A UTF-16 code unit. *)
Definition char := N.
Definition jsstring := list char.

(** The code units of an ASCII literal. *)
Fixpoint js (s : string) : jsstring :=
  match s with
  | EmptyString => []
  | String a s' => N_of_ascii a :: js s'
  end.

Arguments js _%_string.

Definition DOLLAR : char := 36%N.      (* $ *)
Definition PLUS : char := 43%N.        (* + *)
Definition MINUS : char := 45%N.       (* - *)
Definition DOT : char := 46%N.         (* . *)
Definition POUND : char := 163%N.      (* U+00A3 *)
Definition EURO : char := 8364%N.      (* U+20AC *)
Definition RUPEE : char := 8377%N.     (* U+20B9 *)

(** [\d] and DecimalDigit: the ten ASCII digits only. *)
Definition isDigit (c : char) : bool := ((48 <=? c) && (c <=? 57))%N.

(** [\s] and StrWhiteSpaceChar: WhiteSpace and LineTerminator. *)
Definition isWhiteSpace (c : char) : bool :=
  (((9 <=? c) && (c <=? 13)) || (c =? 32) || (c =? 160) || (c =? 5760)
   || ((8192 <=? c) && (c <=? 8202)) || (c =? 8232) || (c =? 8233)
   || (c =? 8239) || (c =? 8287) || (c =? 12288) || (c =? 65279))%N.

Definition isExponentIndicator (c : char) : bool :=
  ((c =? 101) || (c =? 69))%N.

(** The longest prefix whose characters satisfy [p], and the rest. *)
Fixpoint span (p : char -> bool) (s : jsstring) : jsstring * jsstring :=
  match s with
  | c :: s' =>
      if p c then let '(run, rest) := span p s' in (c :: run, rest)
      else ([], s)
  | [] => ([], [])
  end.

Fixpoint startsWith (s prefix : jsstring) : bool :=
  match prefix, s with
  | [], _ => true
  | p :: prefix', c :: s' => (c =? p)%N && startsWith s' prefix'
  | _ :: _, [] => false
  end.

(** The mathematical value of a run of decimal digits. *)
Definition digit_value (c : char) : Z := Z.of_N c - 48.
Definition digits_value (ds : jsstring) : Z :=
  fold_left (fun acc c => 10 * acc + digit_value c) ds 0.

(** [Number.prototype.toString] of a non-negative integer below 10^21,
    which is what [Date.now().toString()] prints. *)
Definition decimal_string (n : N) : jsstring :=
  js (DecimalString.NilZero.string_of_uint (N.to_uint n)).

End JSString.
Import JSString.

(* ================================================================== *)
(** * parseFloat *)
(* ================================================================== *)

Module ParseFloat.

(** An optional sign in front of a StrUnsignedDecimalLiteral. *)
Definition sign (s : jsstring) : bool * jsstring :=
  match s with
  | c :: s' =>
      if (c =? MINUS)%N then (true, s')
      else if (c =? PLUS)%N then (false, s')
      else (false, s)
  | [] => (false, [])
  end.

(** The value of an ExponentPart at the head of [s]; 0 when there is
    none (the longest literal prefix then stops before [s]). *)
Definition exponent (s : jsstring) : Z :=
  match s with
  | c :: s' =>
      if isExponentIndicator c then
        let '(neg, s'') := sign s' in
        match fst (span isDigit s'') with
        | [] => 0
        | ds => if neg then - digits_value ds else digits_value ds
        end
      else 0
  | [] => 0
  end.

(** [parseFloat(string)]: skip leading white space, take the longest
    prefix that is a StrDecimalLiteral, return its Number value, or NaN
    when no prefix is one. *)
Definition parseFloat (s : jsstring) : number :=
  let trimmed := snd (span isWhiteSpace s) in
  let '(neg, unsigned) := sign trimmed in
  if startsWith unsigned (js "Infinity") then S754_infinity neg
  else
    let '(int_part, r1) := span isDigit unsigned in
    let '(frac_part, r2) :=
      match r1 with
      | c :: r => if (c =? DOT)%N then span isDigit r else ([], r1)
      | [] => ([], r1)
      end in
    match int_part ++ frac_part with
    | [] => NaN
    | ds =>
        number_of_decimal neg (digits_value ds)
                          (exponent r2 - Z.of_nat (length frac_part))
    end.

End ParseFloat.
Import ParseFloat.

(** Split a conjunction into its parts, without looking inside them. *)
Ltac conjuncts := repeat match goal with |- _ /\ _ => split end.

(** Numbers are evaluated by [vm_compute] only. *)
Arguments number_of_decimal : simpl never.
Arguments lit : simpl never.
Arguments of_Z : simpl never.
Arguments parseFloat : simpl never.

(* ================================================================== *)
(** * Regular expressions *)
(* ================================================================== *)

Module RegExp.

(** The fragment of the pattern syntax that the source uses. *)
Inductive regex : Type :=
| Chr (c : char)                                   (* a pattern character *)
| Class (p : char -> bool)                         (* a class escape: \d \s *)
| Seq (r1 r2 : regex)                              (* r1 r2 *)
| Quant (min : nat) (max : option nat) (r : regex) (* greedy r{min,max} *)
| Group (n : nat) (r : regex).                     (* n-th capturing group *)

Definition star : regex -> regex := Quant 0 None.            (* r*   *)
Definition plus : regex -> regex := Quant 1 None.            (* r+   *)
Definition opt : regex -> regex := Quant 0 (Some 1%nat).     (* r?   *)
Definition exactly (n : nat) : regex -> regex := Quant n (Some n). (* r{n} *)

Definition captures := list (nat * jsstring).

(** A match state: the input that is still to be read, and the groups
    captured so far (the most recent capture of a group comes first). *)
Record state : Type := mkState { remaining : jsstring; caps : captures }.

Definition Continuation := state -> option state.
Definition Matcher := state -> Continuation -> option state.

(** RepeatMatcher of the ECMAScript specification, greedy case.  An
    iteration that matches the empty string once [min] is reached is
    refused, so every call either lowers [min] or shortens the input.
    [fuel] bounds the number of iterations; [S (min + length input)]
    is enough (see [RepeatMatcher_fuel]).  No quantified atom of the
    source contains a group, so captures are not reset per iteration. *)
Fixpoint RepeatMatcher (fuel : nat) (m : Matcher) (min : nat)
         (max : option nat) (x : state) (c : Continuation)
         {struct fuel} : option state :=
  match max with
  | Some O => c x
  | _ =>
      match fuel with
      | O => None
      | S fuel' =>
          let d : Continuation := fun y =>
            if ((min =? 0) && (length (remaining y) =? length (remaining x)))%nat
            then None
            else RepeatMatcher fuel' m (Nat.pred min) (option_map Nat.pred max) y c in
          if (min =? 0)%nat then
            match m x d with
            | Some z => Some z
            | None => c x
            end
          else m x d
      end
  end.

Definition consumed (x y : state) : jsstring :=
  firstn (length (remaining x) - length (remaining y)) (remaining x).

Fixpoint matcher (r : regex) : Matcher :=
  match r with
  | Chr c => fun x k =>
      match remaining x with
      | a :: s => if (a =? c)%N then k (mkState s (caps x)) else None
      | [] => None
      end
  | Class p => fun x k =>
      match remaining x with
      | a :: s => if p a then k (mkState s (caps x)) else None
      | [] => None
      end
  | Seq r1 r2 => fun x k => matcher r1 x (fun y => matcher r2 y k)
  | Quant min max r' => fun x k =>
      RepeatMatcher (S (min + length (remaining x))) (matcher r') min max x k
  | Group n r' => fun x k =>
      matcher r' x
        (fun y => k (mkState (remaining y) ((n, consumed x y) :: caps y)))
  end.

(** The array that [exec] and a non-global [match] return: [matched]
    is element 0, [group n] is element [n]; [after] is the input from
    [lastIndex] on. *)
Record MatchResult : Type := mkMatch
  { index : nat; matched : jsstring; groups : captures; after : jsstring }.

Definition group (n : nat) (m : MatchResult) : option jsstring :=
  option_map snd (find (fun e => (fst e =? n)%nat) (groups m)).

(** One attempt at the current position. *)
Definition match_here (r : regex) (i : nat) (s : jsstring) : option MatchResult :=
  match matcher r (mkState s []) Some with
  | Some y => Some (mkMatch i (consumed (mkState s []) y) (caps y) (remaining y))
  | None => None
  end.

(** RegExpBuiltinExec without the sticky flag: try every start
    position from left to right, the end of the input included. *)
Fixpoint exec_from (r : regex) (i : nat) (s : jsstring) : option MatchResult :=
  match match_here r i s with
  | Some m => Some m
  | None =>
      match s with
      | [] => None
      | _ :: s' => exec_from r (S i) s'
      end
  end.

(** [text.match(r)] for a regular expression without the [g] flag. *)
Definition String_match (text : jsstring) (r : regex) : option MatchResult :=
  exec_from r 0 text.

(** The loop of [text.match(r)] for a regular expression with the [g]
    flag: collect element 0 of every successive match; after an empty
    match [lastIndex] is advanced by one. *)
Fixpoint match_loop (fuel : nat) (r : regex) (s : jsstring) : list jsstring :=
  match fuel with
  | O => []
  | S fuel' =>
      match exec_from r 0 s with
      | None => []
      | Some m =>
          matched m ::
            match matched m, after m with
            | [], [] => []
            | [], _ :: s' => match_loop fuel' r s'
            | _ :: _, s' => match_loop fuel' r s'
            end
      end
  end.

(** [text.match(r)] with the [g] flag: all matches, or null if none. *)
Definition String_match_global (text : jsstring) (r : regex) : option (list jsstring) :=
  match match_loop (S (length text)) r text with
  | [] => None
  | l => Some l
  end.

End RegExp.
Import RegExp.

(* ================================================================== *)
(** * App.tsx *)
(* ================================================================== *)

Record Item : Type := mkItem { id : jsstring; name : jsstring; price : number }.

Definition SAMPLE_ITEMS : list Item :=
  [ mkItem (js "1") (js "Apple") (lit 50 (-2));
    mkItem (js "2") (js "Banana") (lit 30 (-2));
    mkItem (js "3") (js "Orange") (lit 60 (-2));
    mkItem (js "4") (js "Milk") (lit 299 (-2));
    mkItem (js "5") (js "Bread") (lit 199 (-2));
    mkItem (js "6") (js "egg") (lit 199 (-2)) ].

Definition TAX_RATE : number := lit 8 (-2).

(** [(\d+(?:\.\d{2})?)], the amount that every pattern captures. *)
Definition amount : regex :=
  Group 1 (Seq (plus (Class isDigit))
               (opt (Seq (Chr DOT) (exactly 2 (Class isDigit))))).

(** [<symbol>\s*(\d+(?:\.\d{2})?)] *)
Definition symbol_pattern (symbol : char) : regex :=
  Seq (Chr symbol) (Seq (star (Class isWhiteSpace)) amount).

(** The object literal, in the order of its keys. *)
Definition CURRENCY_PATTERNS : list (string * regex) :=
  [ ("USD"%string, symbol_pattern DOLLAR);
    ("EUR"%string, symbol_pattern EURO);
    ("INR"%string, symbol_pattern RUPEE);
    ("GBP"%string, symbol_pattern POUND);
    ("GENERIC"%string, amount) ].

(** [Object.values]: the property values in insertion order. *)
Definition Object_values {A : Type} (o : list (string * A)) : list A := map snd o.

(** [/\d+\.?\d*/g] *)
Definition NUMBER_TOKEN : regex :=
  Seq (plus (Class isDigit)) (Seq (opt (Chr DOT)) (star (Class isDigit))).

(** ** The basket totals (App.tsx, lines 59-62) *)

Section Totals.

(** The rate is the constant [TAX_RATE] in the source; the formulas
    are written over any rate, and the component uses them at
    [TAX_RATE]. *)
Variable rate : number.
Variable basket : list Item.
Variable discount : number.

Definition subtotal : number :=
  fold_left (fun sum item => add sum (price item)) basket (lit 0 0).

Definition discountAmount : number :=
  div (mul subtotal discount) (lit 100 0).

Definition taxAmount : number :=
  mul (sub subtotal discountAmount) rate.

Definition totalBill : number :=
  add (sub subtotal discountAmount) taxAmount.

End Totals.

(** ** extractPrice (lines 82-108) *)

(** The [for ... of] loop over the patterns; [return] leaves it. *)
Fixpoint currencyPass (patterns : list regex) (text : jsstring) : option number :=
  match patterns with
  | [] => None
  | pattern :: patterns' =>
      match String_match text pattern with
      | Some m =>
          match group 1 m with
          | Some ((_ :: _) as m1) =>
              let price := parseFloat m1 in
              if negb (isNaN price) then Some price
              else currencyPass patterns' text
          | _ => currencyPass patterns' text
          end
      | None => currencyPass patterns' text
      end
  end.

(** The code after the loop. *)
Definition fallbackPass (text : jsstring) : option number :=
  match String_match_global text NUMBER_TOKEN with
  | Some numbers =>
      let possiblePrices :=
        filter (fun num => gt num (lit 0 0) && lt num (lit 10000 0))
               (map parseFloat numbers) in
      match possiblePrices with
      | first :: _ => Some first
      | [] => None
      end
  | None => None
  end.

Definition extractPrice (text : jsstring) : option number :=
  match currencyPass (Object_values CURRENCY_PATTERNS) text with
  | Some price => Some price
  | None => fallbackPass text
  end.

(** ** The contrast enhancement of captureImage (lines 189-196) *)

Definition threshold : number := lit 128 0.

(** [avg > threshold ? 255 : 0] for the three colour samples of a pixel. *)
Definition value (r g b : Z) : Z :=
  let avg := div (add (add (of_Z r) (of_Z g)) (of_Z b)) (lit 3 0) in
  if gt avg threshold then 255 else 0.

(** The loop [for (i = 0; i < data.length; i += 4)] over the RGBA bytes:
    each turn reads and writes the samples of one pixel and leaves its
    alpha alone.  The data of an ImageData holds four bytes per pixel;
    for a length that is no multiple of four the last turn reads
    [undefined], so [avg] is NaN and [value] is 0, and the writes past
    the end of the typed array are dropped. *)
Fixpoint enhanceContrast (data : list Z) : list Z :=
  match data with
  | r :: g :: b :: a :: data' =>
      let v := value r g b in v :: v :: v :: a :: enhanceContrast data'
  | [r; g; b] => let v := value r g b in [v; v; v]
  | [_; _] => [0; 0]
  | [_] => [0]
  | [] => []
  end.

(** ** The component state and its handlers *)

Record AppState : Type := mkApp
  { isBillingOn : bool;
    basket : list Item;
    showCamera : bool;
    cameraPermission : option bool;
    isDarkMode : bool;
    discount : number;
    isScanning : bool;
    scanError : option jsstring;
    manualPrice : jsstring;
    showManualInput : bool }.

Definition setBasket (b : list Item) (st : AppState) : AppState :=
  mkApp (isBillingOn st) b (showCamera st) (cameraPermission st)
        (isDarkMode st) (discount st) (isScanning st) (scanError st)
        (manualPrice st) (showManualInput st).

Definition setScanError (e : option jsstring) (st : AppState) : AppState :=
  mkApp (isBillingOn st) (basket st) (showCamera st) (cameraPermission st)
        (isDarkMode st) (discount st) (isScanning st) e
        (manualPrice st) (showManualInput st).

Definition setManualPrice (p : jsstring) (st : AppState) : AppState :=
  mkApp (isBillingOn st) (basket st) (showCamera st) (cameraPermission st)
        (isDarkMode st) (discount st) (isScanning st) (scanError st)
        p (showManualInput st).

Definition setShowManualInput (b : bool) (st : AppState) : AppState :=
  mkApp (isBillingOn st) (basket st) (showCamera st) (cameraPermission st)
        (isDarkMode st) (discount st) (isScanning st) (scanError st)
        (manualPrice st) b.

(** [setBasket([...basket, item])] *)
Definition addItemToBasket (item : Item) (st : AppState) : AppState :=
  setBasket (basket st ++ [item]) st.

(** [basket.filter((_, i) => i !== index)] *)
Fixpoint filter_index {A : Type} (f : A -> nat -> bool) (i : nat) (l : list A) : list A :=
  match l with
  | [] => []
  | x :: l' => if f x i then x :: filter_index f (S i) l' else filter_index f (S i) l'
  end.

Definition removeItemFromBasket (index : nat) (st : AppState) : AppState :=
  setBasket (filter_index (fun _ i => negb (i =? index)%nat) 0 (basket st)) st.

(** The submit handler of the manual form; [now] is what [Date.now()]
    returns when the handler runs. *)
Definition handleManualPriceSubmit (now : N) (st : AppState) : AppState :=
  let price := parseFloat (manualPrice st) in
  if negb (isNaN price) && gt price (lit 0 0) then
    setScanError None
      (setShowManualInput false
         (setManualPrice []
            (addItemToBasket
               (mkItem (decimal_string now) (js "Manual Item") price) st)))
  else
    setScanError (Some (js "Please enter a valid price")) st.

(** What [processImage] does with the recognised text. *)
Definition scannedItem (now : N) (text : jsstring) : option Item :=
  match extractPrice text with
  | Some price => Some (mkItem (decimal_string now) (js "Scanned Item") price)
  | None => None
  end.

(** The item that the barcode scanner adds for a decoded [code]. *)
Definition barcodeItem (now : N) (code : jsstring) : Item :=
  mkItem (decimal_string now) (js "Item (" ++ code ++ js ")") (lit 999 (-2)).

(** The baskets that the handlers can produce from the empty one. *)
Inductive reachable : list Item -> Prop :=
| reach_init : reachable []
| reach_sample st item :
    reachable (basket st) -> In item SAMPLE_ITEMS ->
    reachable (basket (addItemToBasket item st))
| reach_scan st now text item :
    reachable (basket st) -> scannedItem now text = Some item ->
    reachable (basket (addItemToBasket item st))
| reach_barcode st now code :
    reachable (basket st) ->
    reachable (basket (addItemToBasket (barcodeItem now code) st))
| reach_manual st now :
    reachable (basket st) ->
    reachable (basket (handleManualPriceSubmit now st))
| reach_remove st index :
    reachable (basket st) ->
    reachable (basket (removeItemFromBasket index st)).


(** ** More of the component: the setters, the discount field, the scan *)

Definition setShowCamera (b : bool) (st : AppState) : AppState :=
  mkApp (isBillingOn st) (basket st) b (cameraPermission st)
        (isDarkMode st) (discount st) (isScanning st) (scanError st)
        (manualPrice st) (showManualInput st).


Definition setIsScanning (b : bool) (st : AppState) : AppState :=
  mkApp (isBillingOn st) (basket st) (showCamera st) (cameraPermission st)
        (isDarkMode st) (discount st) b (scanError st)
        (manualPrice st) (showManualInput st).




(** The calls that [processImage] awaits on the OCR worker, in the
    order of the source. *)
Inductive WorkerCall : Type :=
| CreateWorker | LoadLanguage | Initialize | SetParameters | Recognize | Terminate.

Definition WORKER_CALLS : list WorkerCall :=
  [CreateWorker; LoadLanguage; Initialize; SetParameters; Recognize; Terminate].

Definition WorkerCall_eqb (a b : WorkerCall) : bool :=
  match a, b with
  | CreateWorker, CreateWorker | LoadLanguage, LoadLanguage
  | Initialize, Initialize | SetParameters, SetParameters
  | Recognize, Recognize | Terminate, Terminate => true
  | _, _ => false
  end.

(** One run of the OCR engine as [processImage] sees it: the call that
    rejects, if one does, and the text that [recognize] resolves to. *)
Record OcrRun : Type := mkOcr { rejects : option WorkerCall; text_of : jsstring }.

(** The calls made on the worker: all of them, or those up to and
    including the one that rejects (the [catch] is entered there). *)
Fixpoint calls_until (rejected : WorkerCall) (calls : list WorkerCall) : list WorkerCall :=
  match calls with
  | [] => []
  | c :: calls' =>
      if WorkerCall_eqb c rejected then [c] else c :: calls_until rejected calls'
  end.

Definition worker_calls (ocr : OcrRun) : list WorkerCall :=
  match rejects ocr with
  | None => WORKER_CALLS
  | Some c => calls_until c WORKER_CALLS
  end.

(** [processImage] (lines 134-170) runs in the closure of the render
    [render] in which the capture button was pressed: the [basket] it
    spreads is the one of that render.  Its setters act on the state
    [current] that the component has when they are called. *)
Definition processImage_start (current : AppState) : AppState :=
  setIsScanning true current.

Definition processImage_finish (render : AppState) (ocr : OcrRun) (now : N)
           (current : AppState) : AppState :=
  setIsScanning false
    match rejects ocr with
    | None =>
        match extractPrice (text_of ocr) with
        | Some price =>
            setShowCamera false
              (setScanError None
                 (setBasket
                    (basket render
                     ++ [mkItem (decimal_string now) (js "Scanned Item") price])
                    current))
        | None =>
            setShowManualInput true
              (setScanError
                 (Some (js "Could not detect a valid price. Please try again or enter manually."))
                 current)
        end
    | Some _ =>
        setShowManualInput true
          (setScanError
             (Some (js "Error processing the image. Please try again or enter manually."))
             current)
    end.

(** A scan during which nothing else happens to the component. *)
Definition processImage (ocr : OcrRun) (now : N) (st : AppState) : AppState :=
  processImage_finish st ocr now (processImage_start st).

(** ** Runs of the handlers that act on the basket *)


(** What the user and the collaborators do: press the catalog button
    number [k], let a scan end with the run [ocr] of the OCR engine,
    let the barcode reader resolve with [code], type [text] in the
    manual form and submit it, press the remove button of a position.
    [now] is what [Date.now()] returns in the handler. *)
Inductive Event : Type :=
| ChooseSample (k : nat)
| ScanDone (now : N) (ocr : OcrRun)
| BarcodeDone (now : N) (code : jsstring)
| SubmitManual (now : N) (text : jsstring)
| RemoveItem (index : nat).

Definition handle (e : Event) (st : AppState) : AppState :=
  match e with
  | ChooseSample k =>
      match nth_error SAMPLE_ITEMS k with
      | Some item => addItemToBasket item st
      | None => st
      end
  | ScanDone now ocr => processImage ocr now st
  | BarcodeDone now code =>
      setShowCamera false (addItemToBasket (barcodeItem now code) st)
  | SubmitManual now text => handleManualPriceSubmit now (setManualPrice text st)
  | RemoveItem index => removeItemFromBasket index st
  end.

Definition run (events : list Event) (st : AppState) : AppState :=
  fold_left (fun st e => handle e st) events st.








(** A Number that is +0, -0 or finite. *)
Definition is_finite (x : number) : bool :=
  match x with
  | S754_zero _ | S754_finite _ _ _ => true
  | _ => false
  end.

(** A Number that is neither NaN nor negative: +0, a positive finite
    value or +Infinity. *)
Definition nonnegative (x : number) : bool :=
  match x with
  | S754_zero false | S754_infinity false | S754_finite false _ _ => true
  | _ => false
  end.

(* ================================================================== *)
(** * Direct readings of the patterns

    Functions on the text that say, without the matcher, what the
    patterns of the source match.  The lemmas below prove that the
    matcher computes them. *)
(* ================================================================== *)

(** A greedy unbounded quantifier over a character class followed by
    [k]: the longest run is tried first, then each shorter one down to
    [min] characters. *)
Fixpoint greedy (p : char -> bool) (min : nat) (s : jsstring)
         (cs : captures) (k : Continuation) : option state :=
  match s with
  | a :: s' =>
      if p a then
        match greedy p (Nat.pred min) s' cs k with
        | Some z => Some z
        | None => if (min =? 0)%nat then k (mkState s cs) else None
        end
      else if (min =? 0)%nat then k (mkState s cs) else None
  | [] => if (min =? 0)%nat then k (mkState [] cs) else None
  end.

(** A point and two digits at the head of [s]. *)
Definition fraction (s : jsstring) : option (jsstring * jsstring) :=
  match s with
  | c :: a :: b :: s' =>
      if (c =? DOT)%N && isDigit a && isDigit b then Some ([c; a; b], s')
      else None
  | _ => None
  end.

(** The amount at the head of [s] and the text after it: all the
    digits there are, then a point and two digits if they follow. *)
Definition price_token (s : jsstring) : option (jsstring * jsstring) :=
  let '(ds, r) := span isDigit s in
  match ds with
  | [] => None
  | _ :: _ =>
      match fraction r with
      | Some (f, r') => Some (ds ++ f, r')
      | None => Some (ds, r)
      end
  end.

(** The text has no decimal digit. *)
Definition no_digit (text : jsstring) : bool :=
  forallb (fun c => negb (isDigit c)) text.

(** The four currency symbols of [CURRENCY_PATTERNS]. *)
Definition CURRENCY_SYMBOLS : list char := [DOLLAR; EURO; RUPEE; POUND].

(** The symbol that a pattern of the table starts with; the generic
    pattern has none. *)
Definition pattern_symbol (r : regex) : jsstring :=
  match r with
  | Seq (Chr c) _ => [c]
  | _ => []
  end.

(** The text does not contain the code unit [c]. *)
Definition absent (c : char) (s : jsstring) : bool :=
  forallb (fun a => negb (a =? c)%N) s.

(** The text contains none of the four currency symbols. *)
Definition no_symbol (s : jsstring) : bool :=
  forallb (fun a => negb (existsb (N.eqb a) CURRENCY_SYMBOLS)) s.

(** A character that is neither a digit nor a currency symbol. *)
Definition noise (c : char) : bool :=
  negb (isDigit c) && negb (existsb (N.eqb c) CURRENCY_SYMBOLS).

(** The shapes of an amount: digits, or digits, a point, two digits. *)
Inductive amount_shape : jsstring -> Prop :=
| shape_integer d ds :
    forallb isDigit (d :: ds) = true -> amount_shape (d :: ds)
| shape_decimal d ds a b :
    forallb isDigit (d :: ds) = true -> isDigit a = true -> isDigit b = true ->
    amount_shape ((d :: ds) ++ [DOT; a; b]).

(** A matcher is local when it calls its continuation only on states
    that have no more input left than the state it started from. *)
Definition local (m : Matcher) : Prop :=
  forall x d d',
    (forall y, (length (remaining y) <= length (remaining x))%nat -> d y = d' y) ->
    m x d = m x d'.

(** What a matcher returns is what its continuation returned. *)
Definition passes (m : Matcher) : Prop :=
  forall x k z, m x k = Some z -> exists y, k y = Some z.

(** Apple at 0.50 and Banana at 0.30. *)
Definition example_basket : list Item := firstn 2 SAMPLE_ITEMS.

(* ================================================================== *)
(** * Numbers: what parsing can return *)
(* ================================================================== *)

Section NumberFacts.

Lemma shr_1_nonneg mrs : 0 <= shr_m mrs -> 0 <= shr_m (shr_1 mrs).
Proof.
  destruct mrs as [m r s]; simpl.
  destruct m as [|p|p]; [easy | | lia].
  destruct p; simpl; lia.
Qed.

Lemma iter_pos_invariant {A : Type} (P : A -> Prop) (f : A -> A) :
  (forall a, P a -> P (f a)) -> forall p a, P a -> P (iter_pos f p a).
Proof.
  intros Hf p; induction p; simpl; intros a Ha; auto.
Qed.

Lemma shr_fexp_nonneg m e l :
  0 <= m -> 0 <= shr_m (fst (shr_fexp prec emax m e l)).
Proof.
  intros Hm. unfold shr_fexp, shr.
  assert (H0 : 0 <= shr_m (shr_record_of_loc m l)).
  { destruct l as [|[]]; simpl; exact Hm. }
  destruct (fexp prec emax (Zdigits2 m + e) - e); simpl; auto.
  apply iter_pos_invariant with (P := fun r => 0 <= shr_m r); auto.
  apply shr_1_nonneg.
Qed.

Lemma round_nearest_even_nonneg m l : 0 <= m -> 0 <= round_nearest_even m l.
Proof.
  intros Hm. destruct l as [|[]]; simpl; try lia.
  destruct (Z.even m); lia.
Qed.

Lemma binary_round_aux_not_nan sx mx ex lx :
  0 <= mx -> isNaN (binary_round_aux prec emax sx mx ex lx) = false.
Proof.
  intros Hm. unfold binary_round_aux.
  pose proof (shr_fexp_nonneg mx ex lx Hm) as H1.
  destruct (shr_fexp prec emax mx ex lx) as [mrs' e']; simpl in H1.
  pose proof (shr_fexp_nonneg _ e' loc_Exact
                (round_nearest_even_nonneg _ (loc_of_shr_record mrs') H1)) as H2.
  destruct (shr_fexp prec emax _ e' loc_Exact) as [mrs'' e'']; simpl in H2.
  destruct (shr_m mrs'') as [|p|p]; [reflexivity | | lia].
  destruct (e'' <=? emax - prec); reflexivity.
Qed.

Lemma SFdiv_core_binary_nonneg m1 e1 m2 e2 :
  0 <= fst (fst (SFdiv_core_binary prec emax (Zpos m1) e1 (Zpos m2) e2)).
Proof.
  unfold SFdiv_core_binary.
  set (s := e1 - e2 - _).
  set (m' := match s with Z0 => _ | Zpos _ => _ | Zneg _ => _ end).
  assert (Hm' : 0 <= m').
  { unfold m'. destruct s; try lia. apply Z.shiftl_nonneg. lia. }
  pose proof (Z.div_eucl_eq m' (Zpos m2) ltac:(lia)) as Heq.
  pose proof (Z.mod_pos_bound m' (Zpos m2) ltac:(lia)) as Hr.
  pose proof (Z.div_pos m' (Zpos m2) Hm' ltac:(lia)) as Hq.
  unfold Z.modulo in Hr. unfold Z.div in Hq.
  destruct (Z.div_eucl m' (Zpos m2)) as [q r]. simpl. exact Hq.
Qed.

(** A decimal is never read as NaN. *)
Lemma number_of_decimal_not_nan neg m e :
  isNaN (number_of_decimal neg m e) = false.
Proof.
  unfold number_of_decimal.
  destruct (m * 10 ^ Z.max e 0) as [|p|p]; try reflexivity.
  unfold SFdiv.
  pose proof (SFdiv_core_binary_nonneg p 0 (Z.to_pos (10 ^ Z.max (- e) 0)) 0) as H.
  destruct (SFdiv_core_binary prec emax (Zpos p) 0 _ 0) as [[mz ez] lz].
  simpl in H. apply binary_round_aux_not_nan. exact H.
Qed.

End NumberFacts.

(* ================================================================== *)
(** * The matcher: fuel, and where a match ends *)
(* ================================================================== *)

Section MatcherFacts.

Lemma RepeatMatcher_local m :
  local m ->
  forall fuel min max, local (fun x c => RepeatMatcher fuel m min max x c).
Proof.
  intros Hm fuel. induction fuel as [|fuel IH]; intros min max x c c' Hc.
  - simpl. destruct max as [[|n]|]; auto.
  - assert (Hx : c x = c' x) by (apply Hc; lia).
    cbn [RepeatMatcher].
    assert (Hd : forall y,
               (length (remaining y) <= length (remaining x))%nat ->
               (if ((min =? 0) && (length (remaining y) =? length (remaining x)))%nat
                then None
                else RepeatMatcher fuel m (Nat.pred min) (option_map Nat.pred max) y c)
               = (if ((min =? 0) && (length (remaining y) =? length (remaining x)))%nat
                  then None
                  else RepeatMatcher fuel m (Nat.pred min) (option_map Nat.pred max) y c')).
    { intros y Hy. destruct ((min =? 0) && _)%nat; [reflexivity|].
      apply IH. intros z Hz. apply Hc. lia. }
    rewrite (Hm x _ _ Hd), Hx. reflexivity.
Qed.

Lemma RepeatMatcher_passes m :
  passes m ->
  forall fuel min max, passes (fun x c => RepeatMatcher fuel m min max x c).
Proof.
  intros Hm fuel. induction fuel as [|fuel IH]; intros min max x c z H.
  - simpl in H. destruct max as [[|n]|]; try discriminate. now exists x.
  - cbn [RepeatMatcher] in H.
    assert (Hd : forall n, m x (fun y =>
               if ((min =? 0) && (length (remaining y) =? length (remaining x)))%nat
               then None
               else RepeatMatcher fuel m (Nat.pred min) (option_map Nat.pred (Some (S n))) y c)
              = Some z -> exists y, c y = Some z).
    { intros n Hz. apply Hm in Hz as (y & Hy).
      destruct ((min =? 0) && _)%nat; [discriminate|]. now apply IH in Hy. }
    assert (Hd' : m x (fun y =>
               if ((min =? 0) && (length (remaining y) =? length (remaining x)))%nat
               then None
               else RepeatMatcher fuel m (Nat.pred min) (option_map Nat.pred None) y c)
              = Some z -> exists y, c y = Some z).
    { intros Hz. apply Hm in Hz as (y & Hy).
      destruct ((min =? 0) && _)%nat; [discriminate|]. now apply IH in Hy. }
    destruct max as [[|n]|]; [now exists x | |].
    + destruct (min =? 0)%nat; [|now apply (Hd n)].
      destruct (m x _) as [z'|] eqn:E; [|now exists x].
      injection H as ->. now apply (Hd n).
    + destruct (min =? 0)%nat; [|now apply Hd'].
      destruct (m x _) as [z'|] eqn:E; [|now exists x].
      injection H as ->. now apply Hd'.
Qed.

(** The fuel does not matter once it covers [min] and the input: no
    run of the matcher ends because the fuel is used up. *)
Lemma RepeatMatcher_fuel m :
  local m ->
  forall f1 f2 min max x c,
    (min + length (remaining x) < f1)%nat ->
    (min + length (remaining x) < f2)%nat ->
    RepeatMatcher f1 m min max x c = RepeatMatcher f2 m min max x c.
Proof.
  intros Hm f1. induction f1 as [|f1 IH]; intros f2 min max x c H1 H2; [lia|].
  destruct f2 as [|f2]; [lia|]. cbn [RepeatMatcher].
  assert (Hd : forall y,
             (length (remaining y) <= length (remaining x))%nat ->
             (if ((min =? 0) && (length (remaining y) =? length (remaining x)))%nat
              then None
              else RepeatMatcher f1 m (Nat.pred min) (option_map Nat.pred max) y c)
             = (if ((min =? 0) && (length (remaining y) =? length (remaining x)))%nat
                then None
                else RepeatMatcher f2 m (Nat.pred min) (option_map Nat.pred max) y c)).
  { intros y Hy.
    destruct (min =? 0)%nat eqn:Hmin;
      destruct (length (remaining y) =? length (remaining x))%nat eqn:Hlen;
      simpl; try reflexivity.
    - apply Nat.eqb_eq in Hmin. apply Nat.eqb_neq in Hlen. apply IH; lia.
    - apply Nat.eqb_neq in Hmin. apply IH; lia.
    - apply Nat.eqb_neq in Hmin. apply IH; lia. }
  rewrite (Hm x _ _ Hd). reflexivity.
Qed.

Lemma matcher_local r : local (matcher r).
Proof.
  induction r as [c | p | r1 IH1 r2 IH2 | min max r IH | n r IH];
    intros x d d' Hd; cbn [matcher].
  - destruct (remaining x) as [|a s] eqn:Hx; [reflexivity|].
    destruct (a =? c)%N; [|reflexivity]. apply Hd. simpl. lia.
  - destruct (remaining x) as [|a s] eqn:Hx; [reflexivity|].
    destruct (p a); [|reflexivity]. apply Hd. simpl. lia.
  - apply IH1. intros y Hy. apply IH2. intros z Hz. apply Hd. lia.
  - now apply RepeatMatcher_local.
  - apply IH. intros y Hy. apply Hd. simpl. exact Hy.
Qed.

Lemma matcher_passes r : passes (matcher r).
Proof.
  induction r as [c | p | r1 IH1 r2 IH2 | min max r IH | n r IH];
    intros x k z H; cbn [matcher] in H.
  - destruct (remaining x) as [|a s]; [discriminate|].
    destruct (a =? c)%N; [|discriminate]. eauto.
  - destruct (remaining x) as [|a s]; [discriminate|].
    destruct (p a); [|discriminate]. eauto.
  - apply IH1 in H as (y & Hy). now apply IH2 in Hy.
  - now apply (RepeatMatcher_passes _ IH) in H.
  - apply IH in H as (y & Hy). eauto.
Qed.

(** A quantifier gives the same result with any larger fuel. *)
Lemma matcher_quant_fuel min max r x k fuel :
  (min + length (remaining x) < fuel)%nat ->
  matcher (Quant min max r) x k = RepeatMatcher fuel (matcher r) min max x k.
Proof.
  intros H. cbn [matcher].
  apply RepeatMatcher_fuel; [apply matcher_local | lia | exact H].
Qed.

(** A match ends inside the text it started in. *)
Lemma matcher_shrinks r x y :
  matcher r x Some = Some y ->
  (length (remaining y) <= length (remaining x))%nat.
Proof.
  intros H.
  rewrite (matcher_local r x Some
             (fun y => if (length (remaining y) <=? length (remaining x))%nat
                       then Some y else None)) in H.
  - apply matcher_passes in H as (z & Hz).
    destruct (length (remaining z) <=? length (remaining x))%nat eqn:E;
      [|discriminate].
    injection Hz as <-. now apply Nat.leb_le.
  - intros z Hz. apply Nat.leb_le in Hz. now rewrite Hz.
Qed.

Lemma match_here_after r i s m :
  match_here r i s = Some m ->
  (length (after m) <= length s)%nat
  /\ length (matched m) = (length s - length (after m))%nat.
Proof.
  unfold match_here. destruct (matcher r _ Some) as [y|] eqn:E; [|discriminate].
  apply matcher_shrinks in E. simpl in E.
  intros H; injection H as <-. cbn [after matched]. split; [exact E|].
  unfold consumed. cbn [remaining]. apply firstn_length_le. lia.
Qed.

Lemma exec_from_after r s :
  forall i m,
    exec_from r i s = Some m ->
    (length (after m) + length (matched m) <= length s)%nat.
Proof.
  induction s as [|a s IH]; intros i m H; cbn [exec_from] in H.
  - destruct (match_here r i []) eqn:E; [|discriminate].
    injection H as ->. apply match_here_after in E. simpl in *. lia.
  - destruct (match_here r i (a :: s)) eqn:E.
    + injection H as ->. apply match_here_after in E. lia.
    + apply IH in H. simpl. lia.
Qed.

(** The loop of a global match steps forward at every turn, so its
    fuel does not matter once it exceeds the length of the text. *)
Lemma match_loop_fuel r f1 :
  forall f2 s,
    (length s < f1)%nat -> (length s < f2)%nat ->
    match_loop f1 r s = match_loop f2 r s.
Proof.
  induction f1 as [|f1 IH]; intros f2 s H1 H2; [lia|].
  destruct f2 as [|f2]; [lia|]. cbn [match_loop].
  destruct (exec_from r 0 s) as [m|] eqn:E; [|reflexivity].
  apply exec_from_after in E. f_equal.
  destruct (matched m) as [|c w]; destruct (after m) as [|a s'];
    simpl in E; try reflexivity; apply IH; simpl; lia.
Qed.

End MatcherFacts.

(* ================================================================== *)
(** * The matcher on the patterns of the source *)
(* ================================================================== *)

Section SpanFacts.

Variable p : char -> bool.

Lemma span_app s : fst (span p s) ++ snd (span p s) = s.
Proof.
  induction s as [|c s IH]; simpl; [reflexivity|].
  destruct (p c); [|reflexivity].
  destruct (span p s) as [run rest]; simpl in *. now rewrite IH.
Qed.

Lemma span_run s : forallb p (fst (span p s)) = true.
Proof.
  induction s as [|c s IH]; simpl; [reflexivity|].
  destruct (p c) eqn:Hc; [|reflexivity].
  destruct (span p s) as [run rest]; simpl in *. now rewrite Hc, IH.
Qed.

(** A run of [p] followed by a text that does not start with [p]. *)
Lemma span_exact run rest :
  forallb p run = true ->
  match rest with c :: _ => p c = false | [] => True end ->
  span p (run ++ rest) = (run, rest).
Proof.
  intros Hrun Hrest. induction run as [|a run IH]; simpl in *.
  - destruct rest as [|c rest]; [reflexivity|]. simpl. now rewrite Hrest.
  - apply andb_true_iff in Hrun as [Ha Hrun]. now rewrite Ha, IH.
Qed.

Lemma span_head_false c s : p c = false -> span p (c :: s) = ([], c :: s).
Proof. intros H; simpl; now rewrite H. Qed.

End SpanFacts.

Lemma consumed_app tok r cs cs' :
  consumed (mkState (tok ++ r) cs) (mkState r cs') = tok.
Proof.
  unfold consumed; simpl. rewrite length_app.
  replace (length tok + length r - length r)%nat with (length tok) by lia.
  rewrite firstn_app, Nat.sub_diag, firstn_all; simpl. apply app_nil_r.
Qed.

Lemma eqb_succ_false (n : nat) : (n =? S n)%nat = false.
Proof. apply Nat.eqb_neq; lia. Qed.

Section ClassQuantifier.

Variable p : char -> bool.

(** The matcher runs a greedy quantifier over a class as [greedy]
    says, whenever the fuel covers [min] and the input. *)
Lemma RepeatMatcher_class s :
  forall min fuel cs k,
    (min + length s < fuel)%nat ->
    RepeatMatcher fuel (matcher (Class p)) min None (mkState s cs) k
    = greedy p min s cs k.
Proof.
  induction s as [|a s IH]; intros min fuel cs k Hfuel;
    (destruct fuel as [|fuel]; [lia|]); simpl.
  - destruct (min =? 0)%nat; reflexivity.
  - destruct (p a) eqn:Ha.
    + rewrite eqb_succ_false, andb_false_r.
      rewrite IH by (simpl in Hfuel; lia).
      destruct (min =? 0)%nat; [reflexivity|].
      destruct (greedy p (Nat.pred min) s cs k); reflexivity.
    + destruct (min =? 0)%nat; reflexivity.
Qed.

Lemma matcher_quant_class min s cs k :
  matcher (Quant min None (Class p)) (mkState s cs) k = greedy p min s cs k.
Proof.
  change (matcher (Quant min None (Class p)) (mkState s cs) k)
    with (RepeatMatcher (S (min + length s)) (matcher (Class p)) min None
                        (mkState s cs) k).
  apply RepeatMatcher_class. lia.
Qed.

(** The longest run wins as soon as the continuation accepts it. *)
Lemma greedy_longest s :
  forall min cs k z,
    (min <= length (fst (span p s)))%nat ->
    k (mkState (snd (span p s)) cs) = Some z ->
    greedy p min s cs k = Some z.
Proof.
  induction s as [|a s IH]; intros min cs k z Hmin Hk; simpl in *.
  - replace min with 0%nat by lia. exact Hk.
  - destruct (p a) eqn:Ha.
    + destruct (span p s) as [run rest] eqn:Hs; simpl in *.
      rewrite (IH (Nat.pred min) cs k z); [reflexivity | lia | exact Hk].
    + simpl in *. replace min with 0%nat by lia. exact Hk.
Qed.

(** Fewer than [min] characters of the class: no match. *)
Lemma greedy_short s :
  forall min cs k,
    (length (fst (span p s)) < min)%nat -> greedy p min s cs k = None.
Proof.
  induction s as [|a s IH]; intros min cs k Hmin; simpl in *.
  - destruct min; [lia | reflexivity].
  - destruct (p a) eqn:Ha.
    + destruct (span p s) as [run rest] eqn:Hs; simpl in *.
      rewrite IH by lia. destruct min; [lia | reflexivity].
    + destruct min; [simpl in Hmin; lia | reflexivity].
Qed.

(** When the continuation refuses every text that starts inside the
    run, giving characters back is of no use. *)
Lemma greedy_reject s :
  forall cs k,
    (forall a t cs', p a = true -> k (mkState (a :: t) cs') = None) ->
    greedy p 0 s cs k = k (mkState (snd (span p s)) cs).
Proof.
  induction s as [|a s IH]; intros cs k Hk; simpl; [reflexivity|].
  destruct (p a) eqn:Ha; [|reflexivity].
  rewrite IH by exact Hk.
  destruct (span p s) as [run rest]; simpl.
  destruct (k (mkState rest cs)); [reflexivity|].
  now apply Hk.
Qed.

End ClassQuantifier.

Section AmountPattern.

Lemma eqb_succ3_false (n : nat) : (n =? S (S (S n)))%nat = false.
Proof. apply Nat.eqb_neq; lia. Qed.

(** [(?:\.\d{2})?] takes a point and two digits when they are there,
    and gives them back only if the continuation refuses them. *)
Lemma matcher_opt_fraction r cs k :
  matcher (opt (Seq (Chr DOT) (exactly 2 (Class isDigit)))) (mkState r cs) k
  = match fraction r with
    | Some (_, r') =>
        match k (mkState r' cs) with
        | Some z => Some z
        | None => k (mkState r cs)
        end
    | None => k (mkState r cs)
    end.
Proof.
  unfold fraction.
  destruct r as [|c [|a [|b r']]]; simpl.
  - reflexivity.
  - destruct (c =? DOT)%N; reflexivity.
  - destruct (c =? DOT)%N; simpl; [|reflexivity].
    destruct (isDigit a); reflexivity.
  - destruct (c =? DOT)%N; simpl; [|reflexivity].
    destruct (isDigit a); simpl; [|reflexivity].
    destruct (isDigit b); simpl; [|reflexivity].
    rewrite eqb_succ3_false. reflexivity.
Qed.

Lemma fraction_app r f r' : fraction r = Some (f, r') -> r = f ++ r'.
Proof.
  unfold fraction. destruct r as [|c [|a [|b r0]]]; try discriminate.
  destruct ((c =? DOT)%N && isDigit a && isDigit b); [|discriminate].
  intros H; injection H as <- <-. reflexivity.
Qed.

Lemma price_token_app s tok r : price_token s = Some (tok, r) -> s = tok ++ r.
Proof.
  unfold price_token. pose proof (span_app isDigit s) as Hs.
  destruct (span isDigit s) as [ds r0]; simpl in Hs.
  destruct ds as [|d ds]; [discriminate|].
  destruct (fraction r0) as [[f r']|] eqn:Hf; intros H; injection H as <- <-.
  - apply fraction_app in Hf. subst r0. rewrite <- Hs. apply app_assoc.
  - now symmetry.
Qed.

(** [(\d+(?:\.\d{2})?)] as the whole rest of a pattern: it matches
    exactly when the text starts with a digit, and captures the
    amount that [price_token] reads. *)
Lemma matcher_amount s cs :
  matcher amount (mkState s cs) Some
  = match price_token s with
    | Some (tok, r) => Some (mkState r ((1%nat, tok) :: cs))
    | None => None
    end.
Proof.
  unfold amount. cbn [matcher]. unfold plus.
  rewrite matcher_quant_class.
  destruct (price_token s) as [[tok r]|] eqn:Htok.
  - pose proof (price_token_app _ _ _ Htok) as Hs.
    unfold price_token in Htok.
    destruct (span isDigit s) as [ds r0] eqn:Hspan.
    destruct ds as [|d ds]; [discriminate|].
    apply greedy_longest; rewrite Hspan; simpl fst; simpl snd; [simpl; lia|].
    rewrite matcher_opt_fraction.
    destruct (fraction r0) as [[f r']|] eqn:Hf; injection Htok as <- <-;
      cbn [remaining caps]; rewrite Hs at 1; now rewrite consumed_app.
  - unfold price_token in Htok.
    destruct (span isDigit s) as [ds r0] eqn:Hspan.
    destruct ds as [|d ds].
    + apply greedy_short. rewrite Hspan. simpl. lia.
    + destruct (fraction r0) as [[f r']|]; discriminate.
Qed.

Lemma price_token_head_not_digit a s :
  isDigit a = false -> price_token (a :: s) = None.
Proof. intros Ha. unfold price_token. simpl. now rewrite Ha. Qed.

Lemma price_token_head_digit a s :
  isDigit a = true -> price_token (a :: s) <> None.
Proof.
  intros Ha. unfold price_token. simpl. rewrite Ha.
  destruct (span isDigit s) as [run rest].
  destruct (fraction rest) as [[f r']|]; discriminate.
Qed.

Lemma whitespace_not_digit a : isWhiteSpace a = true -> isDigit a = false.
Proof.
  unfold isWhiteSpace, isDigit. intros H.
  apply andb_false_iff.
  repeat rewrite ?orb_true_iff, ?andb_true_iff, ?N.leb_le, ?N.eqb_eq in H.
  rewrite !N.leb_gt. lia.
Qed.

(** [<symbol>\s*(\d+(?:\.\d{2})?)] at the start of [s]. *)
Lemma matcher_symbol c s :
  matcher (symbol_pattern c) (mkState s []) Some
  = match s with
    | a :: s' =>
        if (a =? c)%N then
          match price_token (snd (span isWhiteSpace s')) with
          | Some (tok, r) => Some (mkState r [(1%nat, tok)])
          | None => None
          end
        else None
    | [] => None
    end.
Proof.
  unfold symbol_pattern. cbn [matcher remaining caps].
  destruct s as [|a s']; [reflexivity|].
  destruct (a =? c)%N; [|reflexivity].
  unfold star. rewrite matcher_quant_class.
  rewrite greedy_reject.
  - apply matcher_amount.
  - intros b t cs' Hb. rewrite matcher_amount.
    now rewrite price_token_head_not_digit by now apply whitespace_not_digit.
Qed.

End AmountPattern.

Section TokenValue.

Lemma price_token_shape s tok r :
  price_token s = Some (tok, r) -> amount_shape tok.
Proof.
  unfold price_token. pose proof (span_run isDigit s) as Hrun.
  destruct (span isDigit s) as [ds r0]; simpl in Hrun.
  destruct ds as [|d ds]; [discriminate|].
  unfold fraction.
  destruct r0 as [|c [|a [|b r1]]];
    try (intros H; injection H as <- <-; now constructor).
  destruct (c =? DOT)%N eqn:Hc; simpl;
    [|intros H; injection H as <- <-; now constructor].
  destruct (isDigit a) eqn:Ha; simpl;
    [|intros H; injection H as <- <-; now constructor].
  destruct (isDigit b) eqn:Hb; simpl;
    [|intros H; injection H as <- <-; now constructor].
  intros H; injection H as <- <-.
  apply N.eqb_eq in Hc. subst c. now constructor.
Qed.

Lemma digit_not_whitespace d : isDigit d = true -> isWhiteSpace d = false.
Proof.
  intros Hd. destruct (isWhiteSpace d) eqn:Hw; [|reflexivity].
  apply whitespace_not_digit in Hw. congruence.
Qed.

Lemma digit_range d : isDigit d = true -> (48 <= d <= 57)%N.
Proof.
  unfold isDigit. rewrite andb_true_iff, !N.leb_le. tauto.
Qed.

Lemma dot_not_digit : isDigit DOT = false.
Proof. reflexivity. Qed.

(** What [parseFloat] makes of a text that starts with a digit: no
    white space to skip, no sign, not the word Infinity. *)
Lemma parseFloat_digit_head d s :
  isDigit d = true ->
  parseFloat (d :: s)
  = let '(int_part, r1) := span isDigit (d :: s) in
    let '(frac_part, r2) :=
      match r1 with
      | c :: r => if (c =? DOT)%N then span isDigit r else ([], r1)
      | [] => ([], r1)
      end in
    match int_part ++ frac_part with
    | [] => NaN
    | ds =>
        number_of_decimal false (digits_value ds)
                          (exponent r2 - Z.of_nat (length frac_part))
    end.
Proof.
  intros Hd. unfold parseFloat.
  rewrite (span_head_false isWhiteSpace d s (digit_not_whitespace d Hd)).
  cbn [snd]. pose proof (digit_range d Hd) as Hr.
  unfold sign, MINUS, PLUS.
  replace (d =? 45)%N with false by (symmetry; apply N.eqb_neq; lia).
  replace (d =? 43)%N with false by (symmetry; apply N.eqb_neq; lia).
  replace (startsWith (d :: s) (js "Infinity")) with false; [reflexivity|].
  simpl. replace (d =? 73)%N with false by (symmetry; apply N.eqb_neq; lia).
  reflexivity.
Qed.

Lemma parseFloat_integer d ds :
  forallb isDigit (d :: ds) = true ->
  parseFloat (d :: ds) = number_of_decimal false (digits_value (d :: ds)) 0.
Proof.
  intros Hds. pose proof Hds as Hd. simpl in Hd. apply andb_true_iff in Hd as [Hd _].
  rewrite parseFloat_digit_head by exact Hd.
  replace (d :: ds) with ((d :: ds) ++ []) at 1 by apply app_nil_r.
  rewrite (span_exact isDigit (d :: ds) [] Hds I).
  rewrite app_nil_r. reflexivity.
Qed.

Lemma parseFloat_decimal d ds a b :
  forallb isDigit (d :: ds) = true -> isDigit a = true -> isDigit b = true ->
  parseFloat ((d :: ds) ++ [DOT; a; b])
  = number_of_decimal false (digits_value ((d :: ds) ++ [a; b])) (-2).
Proof.
  intros Hds Ha Hb. pose proof Hds as Hd. simpl in Hd. apply andb_true_iff in Hd as [Hd _].
  change ((d :: ds) ++ [DOT; a; b]) with (d :: (ds ++ [DOT; a; b])) at 1.
  rewrite parseFloat_digit_head by exact Hd.
  change (d :: (ds ++ [DOT; a; b])) with ((d :: ds) ++ [DOT; a; b]).
  rewrite (span_exact isDigit (d :: ds) [DOT; a; b] Hds dot_not_digit).
  rewrite N.eqb_refl.
  change [a; b] with ([a; b] ++ []) at 1.
  rewrite (span_exact isDigit [a; b] []); [|simpl; now rewrite Ha, Hb|exact I].
  reflexivity.
Qed.

(** [parseFloat] against the reader of floating-point literals of the
    kernel, on plain, signed, padded, truncated, tied, very small and
    very large inputs. *)
Lemma parseFloat_agrees_with_binary64 :
  parseFloat (js "12.50") = Prim2SF 12.5%float
  /\ parseFloat (js "  -5.5e2x") = Prim2SF (-550)%float
  /\ parseFloat (js "+.5") = Prim2SF 0.5%float
  /\ parseFloat (js "5.e3") = Prim2SF 5000%float
  /\ parseFloat (js "1e5") = Prim2SF 100000%float
  /\ parseFloat (js "1e") = Prim2SF 1%float
  /\ parseFloat (js "0.1") = Prim2SF 0x1.999999999999ap-4%float
  /\ parseFloat (js "9007199254740993") = Prim2SF 0x1p+53%float
  /\ parseFloat (js "9007199254740993.00000000000000000000000001")
     = Prim2SF 0x1.0000000000001p+53%float
  /\ parseFloat (js "9999.99999999999999999999") = Prim2SF 10000%float
  /\ parseFloat (js "4.9e-324") = Prim2SF 0x0.0000000000001p-1022%float
  /\ parseFloat (js "2.4e-324") = Prim2SF 0%float
  /\ parseFloat (js "1.7976931348623158e308")
     = Prim2SF 0x1.fffffffffffffp+1023%float
  /\ parseFloat (js "1e400") = Prim2SF infinity
  /\ parseFloat (js "-Infinityx") = Prim2SF neg_infinity
  /\ parseFloat (js "-0") = Prim2SF (-0)%float
  /\ parseFloat (js ".") = Prim2SF nan
  /\ parseFloat (js "- 5") = Prim2SF nan
  /\ parseFloat (js "") = Prim2SF nan.
Proof. conjuncts; vm_compute; reflexivity. Qed.

(** An amount read by a pattern always parses to a number. *)
Lemma parseFloat_amount tok :
  amount_shape tok -> tok <> [] /\ isNaN (parseFloat tok) = false.
Proof.
  intros [d ds H | d ds a b H Ha Hb]; split; try discriminate.
  - rewrite parseFloat_integer by exact H. apply number_of_decimal_not_nan.
  - rewrite parseFloat_decimal by assumption. apply number_of_decimal_not_nan.
Qed.

End TokenValue.

(* ================================================================== *)
(** * Searching a text *)
(* ================================================================== *)

Section Search.

Lemma match_here_amount i s :
  match_here amount i s
  = match price_token s with
    | Some (tok, r) => Some (mkMatch i tok [(1%nat, tok)] r)
    | None => None
    end.
Proof.
  unfold match_here. rewrite matcher_amount.
  destruct (price_token s) as [[tok r]|] eqn:Htok; [|reflexivity].
  cbn [remaining caps]. rewrite (price_token_app _ _ _ Htok) at 1.
  now rewrite consumed_app.
Qed.

Lemma match_here_symbol c i s :
  match_here (symbol_pattern c) i s
  = match s with
    | a :: s' =>
        if (a =? c)%N then
          match price_token (snd (span isWhiteSpace s')) with
          | Some (tok, r) =>
              Some (mkMatch i (consumed (mkState s []) (mkState r []))
                            [(1%nat, tok)] r)
          | None => None
          end
        else None
    | [] => None
    end.
Proof.
  unfold match_here. rewrite matcher_symbol.
  destruct s as [|a s']; [reflexivity|].
  destruct (a =? c)%N; [|reflexivity].
  destruct (price_token _) as [[tok r]|]; reflexivity.
Qed.

(** The patterns of the table: a symbol pattern or the generic one. *)
Lemma pattern_cases r :
  In r (Object_values CURRENCY_PATTERNS) ->
  (exists c, In c CURRENCY_SYMBOLS /\ r = symbol_pattern c) \/ r = amount.
Proof.
  simpl. intros [H|[H|[H|[H|[H|[]]]]]]; subst r; [left | left | left | left | now right].
  - exists DOLLAR; split; [unfold CURRENCY_SYMBOLS; simpl; tauto | reflexivity].
  - exists EURO; split; [unfold CURRENCY_SYMBOLS; simpl; tauto | reflexivity].
  - exists RUPEE; split; [unfold CURRENCY_SYMBOLS; simpl; tauto | reflexivity].
  - exists POUND; split; [unfold CURRENCY_SYMBOLS; simpl; tauto | reflexivity].
Qed.

(** Whatever a pattern of the table matches, its group 1 is an amount. *)
Lemma match_here_group r i s m :
  In r (Object_values CURRENCY_PATTERNS) ->
  match_here r i s = Some m ->
  exists tok, group 1 m = Some tok /\ amount_shape tok.
Proof.
  intros Hr Hm. apply pattern_cases in Hr as [(c & _ & ->) | ->].
  - rewrite match_here_symbol in Hm.
    destruct s as [|a s']; [discriminate|].
    destruct (a =? c)%N; [|discriminate].
    destruct (price_token _) as [[tok r]|] eqn:Htok; [|discriminate].
    injection Hm as <-. exists tok. split; [reflexivity|].
    eapply price_token_shape; eassumption.
  - rewrite match_here_amount in Hm.
    destruct (price_token s) as [[tok r]|] eqn:Htok; [|discriminate].
    injection Hm as <-. exists tok. split; [reflexivity|].
    eapply price_token_shape; eassumption.
Qed.

(** The search returns the match at the leftmost position that has one. *)
Lemma exec_from_leftmost r s :
  forall i m,
    exec_from r i s = Some m ->
    exists n,
      (n <= length s)%nat /\
      match_here r (i + n) (skipn n s) = Some m /\
      forall j, (j < n)%nat -> match_here r (i + j) (skipn j s) = None.
Proof.
  induction s as [|a s IH]; intros i m H; simpl in H.
  - destruct (match_here r i []) eqn:Hh; [|discriminate].
    exists 0%nat. rewrite Nat.add_0_r. simpl. split; [lia|]. split; [congruence|].
    intros j Hj; lia.
  - destruct (match_here r i (a :: s)) eqn:Hh.
    + exists 0%nat. rewrite Nat.add_0_r. simpl. split; [lia|]. split; [congruence|].
      intros j Hj; lia.
    + apply IH in H as (n & Hn & Hm & Hbefore).
      exists (S n). split; [simpl; lia|]. split.
      * rewrite <- Nat.add_succ_comm. exact Hm.
      * intros [|j] Hj; [now rewrite Nat.add_0_r|].
        rewrite <- Nat.add_succ_comm. apply Hbefore. lia.
Qed.

(** No position matches: the search fails. *)
Lemma exec_from_none r s :
  forall i,
    (forall j, (j <= length s)%nat -> match_here r (i + j) (skipn j s) = None) ->
    exec_from r i s = None.
Proof.
  induction s as [|a s IH]; intros i H; simpl.
  - specialize (H 0%nat ltac:(simpl; lia)). rewrite Nat.add_0_r in H.
    simpl in H. now rewrite H.
  - pose proof (H 0%nat ltac:(simpl; lia)) as H0. rewrite Nat.add_0_r in H0.
    simpl in H0. rewrite H0. apply IH. intros j Hj.
    specialize (H (S j) ltac:(simpl; lia)).
    now rewrite <- Nat.add_succ_comm in H.
Qed.

(** Some position matches: the search succeeds. *)
Lemma exec_from_some r s :
  forall i n m,
    (n <= length s)%nat ->
    match_here r (i + n) (skipn n s) = Some m ->
    exec_from r i s <> None.
Proof.
  induction s as [|a s IH]; intros i n m Hn Hm; simpl.
  - simpl in Hn. replace n with 0%nat in Hm by lia.
    rewrite Nat.add_0_r in Hm. simpl in Hm. now rewrite Hm.
  - destruct (match_here r i (a :: s)) eqn:Hh; [discriminate|].
    destruct n as [|n].
    + rewrite Nat.add_0_r in Hm. simpl in Hm. congruence.
    + apply (IH (S i) n m); [simpl in Hn; lia|].
      now rewrite Nat.add_succ_comm.
Qed.

Lemma String_match_group text r m :
  In r (Object_values CURRENCY_PATTERNS) ->
  String_match text r = Some m ->
  exists tok, group 1 m = Some tok /\ amount_shape tok.
Proof.
  intros Hr Hm. apply exec_from_leftmost in Hm as (n & _ & Hm & _).
  eapply match_here_group; eassumption.
Qed.

End Search.

(* ================================================================== *)
(** * The currency pass *)
(* ================================================================== *)

Section CurrencyPass.

(** A pattern of the table that matches ends the loop with the value
    of its capture. *)
Lemma currencyPass_hit r patterns text m tok :
  String_match text r = Some m ->
  group 1 m = Some tok -> amount_shape tok ->
  currencyPass (r :: patterns) text = Some (parseFloat tok).
Proof.
  intros Hm Hg Hshape. simpl. rewrite Hm, Hg.
  destruct (parseFloat_amount tok Hshape) as [Hne Hnan].
  destruct tok as [|c tok]; [congruence|]. now rewrite Hnan.
Qed.

Lemma currencyPass_miss r patterns text :
  String_match text r = None ->
  currencyPass (r :: patterns) text = currencyPass patterns text.
Proof. intros Hm. simpl. now rewrite Hm. Qed.

(** The first pattern that matches decides; the ones after it are
    not looked at. *)
Lemma currencyPass_first before :
  forall r after text m tok,
    (forall q, In q before -> String_match text q = None) ->
    String_match text r = Some m ->
    group 1 m = Some tok -> amount_shape tok ->
    currencyPass (before ++ r :: after) text = Some (parseFloat tok).
Proof.
  induction before as [|q before IH]; intros r after text m tok Hb Hm Hg Hs.
  - simpl app. eapply currencyPass_hit; eassumption.
  - simpl app. rewrite currencyPass_miss by (apply Hb; now left).
    eapply IH; eauto. intros q' Hq'. apply Hb. now right.
Qed.

Lemma currencyPass_none patterns text :
  (forall q, In q patterns -> String_match text q = None) ->
  currencyPass patterns text = None.
Proof.
  induction patterns as [|q patterns IH]; intros H; [reflexivity|].
  rewrite currencyPass_miss by (apply H; now left).
  apply IH. intros q' Hq'. apply H. now right.
Qed.

(** As soon as one pattern of the table matches, the loop returns. *)
Lemma currencyPass_some patterns text :
  incl patterns (Object_values CURRENCY_PATTERNS) ->
  (exists q, In q patterns /\ String_match text q <> None) ->
  currencyPass patterns text <> None.
Proof.
  induction patterns as [|r patterns IH]; intros Hincl (q & Hq & Hm).
  - destruct Hq.
  - destruct (String_match text r) as [m|] eqn:Hr.
    + destruct (String_match_group text r m) as (tok & Hg & Hs);
        [apply Hincl; now left | exact Hr |].
      rewrite (currencyPass_hit r patterns text m tok Hr Hg Hs). discriminate.
    + rewrite currencyPass_miss by exact Hr.
      apply IH; [intros x Hx; apply Hincl; now right|].
      destruct Hq as [<-|Hq]; [congruence|]. now exists q.
Qed.

End CurrencyPass.

(* ================================================================== *)
(** * Texts with and without digits or symbols *)
(* ================================================================== *)

Section Presence.

Lemma no_digit_skipn j : forall s, no_digit s = true -> no_digit (skipn j s) = true.
Proof.
  induction j as [|j IH]; intros [|a s] H; simpl; auto.
  simpl in H. apply andb_true_iff in H as [_ H]. now apply IH.
Qed.

Lemma no_digit_span p s : no_digit s = true -> no_digit (snd (span p s)) = true.
Proof.
  induction s as [|a s IH]; intros H; simpl; [reflexivity|].
  destruct (p a); [|exact H].
  simpl in H. apply andb_true_iff in H as [_ H].
  destruct (span p s) as [run rest]; simpl in *. now apply IH.
Qed.

Lemma no_digit_price_token s : no_digit s = true -> price_token s = None.
Proof.
  destruct s as [|a s]; intros H; [reflexivity|].
  simpl in H. apply andb_true_iff in H as [Ha _].
  apply price_token_head_not_digit. now apply negb_true_iff.
Qed.

(** Without a digit no pattern of the table matches anywhere. *)
Lemma no_digit_match_here r i s :
  In r (Object_values CURRENCY_PATTERNS) ->
  no_digit s = true -> match_here r i s = None.
Proof.
  intros Hr Hs. apply pattern_cases in Hr as [(c & _ & ->) | ->].
  - rewrite match_here_symbol. destruct s as [|a s']; [reflexivity|].
    destruct (a =? c)%N; [|reflexivity].
    rewrite no_digit_price_token; [reflexivity|].
    apply no_digit_span. simpl in Hs. now apply andb_true_iff in Hs as [_ Hs].
  - rewrite match_here_amount. now rewrite no_digit_price_token.
Qed.

Lemma no_digit_String_match r text :
  In r (Object_values CURRENCY_PATTERNS) ->
  no_digit text = true -> String_match text r = None.
Proof.
  intros Hr Ht. apply exec_from_none. intros j _.
  apply no_digit_match_here; [exact Hr|]. now apply no_digit_skipn.
Qed.

(** [/\d+\.?\d*/] needs a digit where it starts. *)
Lemma match_here_number_token i s :
  match s with a :: _ => isDigit a = false | [] => True end ->
  match_here NUMBER_TOKEN i s = None.
Proof.
  intros Hs. unfold match_here, NUMBER_TOKEN. cbn [matcher]. unfold plus.
  rewrite matcher_quant_class, greedy_short; [reflexivity|].
  destruct s as [|a s]; simpl; [lia|]. rewrite Hs. simpl. lia.
Qed.

Lemma no_digit_match_global text :
  no_digit text = true -> String_match_global text NUMBER_TOKEN = None.
Proof.
  intros Ht. unfold String_match_global. simpl match_loop.
  rewrite exec_from_none; [reflexivity|].
  intros j _. apply match_here_number_token.
  pose proof (no_digit_skipn j text Ht) as Hj.
  destruct (skipn j text) as [|a s]; [exact I|].
  simpl in Hj. apply andb_true_iff in Hj as [Ha _]. now apply negb_true_iff.
Qed.

Lemma no_digit_fallbackPass text :
  no_digit text = true -> fallbackPass text = None.
Proof. intros Ht. unfold fallbackPass. now rewrite no_digit_match_global. Qed.

(** A text with a digit has a first one. *)
Lemma digit_position s :
  no_digit s = false ->
  exists n d rest,
    (n < length s)%nat /\ skipn n s = d :: rest /\ isDigit d = true.
Proof.
  induction s as [|a s IH]; intros H; [discriminate|].
  simpl in H. destruct (isDigit a) eqn:Ha.
  - exists 0%nat, a, s. simpl. repeat split; [lia | exact Ha].
  - simpl in H. destruct (IH H) as (n & d & rest & Hn & Hs & Hd).
    exists (S n), d, rest. simpl. repeat split; [lia | exact Hs | exact Hd].
Qed.

(** With a digit the generic pattern matches. *)
Lemma digit_String_match_generic text :
  no_digit text = false -> String_match text amount <> None.
Proof.
  intros H. destruct (digit_position text H) as (n & d & rest & Hn & Hs & Hd).
  pose proof (price_token_head_digit d rest Hd) as Htok.
  destruct (price_token (d :: rest)) as [[tok r]|] eqn:E; [|congruence].
  apply (exec_from_some amount text 0 n (mkMatch n tok [(1%nat, tok)] r)); [lia|].
  rewrite match_here_amount, Hs, E. reflexivity.
Qed.

Lemma absent_skipn c j : forall s, absent c s = true -> absent c (skipn j s) = true.
Proof.
  induction j as [|j IH]; intros [|a s] H; simpl; auto.
  simpl in H. apply andb_true_iff in H as [_ H]. now apply IH.
Qed.

(** A symbol pattern needs its symbol. *)
Lemma absent_String_match c text :
  absent c text = true -> String_match text (symbol_pattern c) = None.
Proof.
  intros H. apply exec_from_none. intros j _.
  rewrite match_here_symbol.
  pose proof (absent_skipn c j text H) as Hj.
  destruct (skipn j text) as [|a s]; [reflexivity|].
  simpl in Hj. apply andb_true_iff in Hj as [Ha _].
  apply negb_true_iff in Ha. now rewrite Ha.
Qed.

(** A symbol pattern on a text that starts with its symbol. *)
Lemma String_match_symbol_head c body tok r :
  price_token (snd (span isWhiteSpace body)) = Some (tok, r) ->
  exists m, String_match (c :: body) (symbol_pattern c) = Some m
            /\ group 1 m = Some tok /\ index m = 0%nat.
Proof.
  intros Htok. unfold String_match. simpl exec_from.
  rewrite match_here_symbol, N.eqb_refl, Htok.
  eexists. split; [reflexivity|]. split; reflexivity.
Qed.

(** The generic pattern on a text that starts with an amount. *)
Lemma String_match_generic_head s tok r :
  price_token s = Some (tok, r) ->
  exists m, String_match s amount = Some m
            /\ group 1 m = Some tok /\ index m = 0%nat.
Proof.
  intros Htok. unfold String_match.
  assert (H : match_here amount 0 s = Some (mkMatch 0 tok [(1%nat, tok)] r))
    by now rewrite match_here_amount, Htok.
  exists (mkMatch 0 tok [(1%nat, tok)] r).
  split; [|split; reflexivity].
  destruct s; cbn [exec_from]; now rewrite H.
Qed.

End Presence.

(* ================================================================== *)
(** * extractPrice on a text that starts with a symbol or an amount *)
(* ================================================================== *)

Section SymbolTexts.

Lemma no_symbol_absent c s :
  In c CURRENCY_SYMBOLS -> no_symbol s = true -> absent c s = true.
Proof.
  intros Hc. unfold no_symbol, absent.
  induction s as [|a s IH]; cbn [forallb]; [reflexivity|].
  intros H. apply andb_true_iff in H as [Ha Hs].
  rewrite IH by exact Hs. rewrite andb_true_r.
  apply negb_true_iff in Ha. apply negb_true_iff.
  destruct (a =? c)%N eqn:E; [|reflexivity].
  apply N.eqb_eq in E. subst a.
  assert (existsb (N.eqb c) CURRENCY_SYMBOLS = true); [|congruence].
  apply existsb_exists. exists c. split; [exact Hc | apply N.eqb_refl].
Qed.

Lemma no_symbol_app s t : no_symbol (s ++ t) = no_symbol s && no_symbol t.
Proof. apply forallb_app. Qed.

Lemma digits_no_symbol ds : forallb isDigit ds = true -> no_symbol ds = true.
Proof.
  unfold no_symbol. induction ds as [|d ds IH]; cbn [forallb]; [reflexivity|].
  intros H. apply andb_true_iff in H as [Hd Hds].
  rewrite IH by exact Hds. apply digit_range in Hd.
  unfold CURRENCY_SYMBOLS, DOLLAR, EURO, RUPEE, POUND. cbn [existsb].
  replace (d =? 36)%N with false by (symmetry; apply N.eqb_neq; lia).
  replace (d =? 8364)%N with false by (symmetry; apply N.eqb_neq; lia).
  replace (d =? 8377)%N with false by (symmetry; apply N.eqb_neq; lia).
  replace (d =? 163)%N with false by (symmetry; apply N.eqb_neq; lia).
  reflexivity.
Qed.

(** A text that starts with a symbol and has no other symbol: the
    pattern of that symbol decides. *)
Lemma currencyPass_symbol_text c body tok r :
  In c CURRENCY_SYMBOLS -> no_symbol body = true ->
  price_token (snd (span isWhiteSpace body)) = Some (tok, r) ->
  currencyPass (Object_values CURRENCY_PATTERNS) (c :: body)
  = Some (parseFloat tok).
Proof.
  intros Hc Hbody Htok.
  destruct (String_match_symbol_head c body tok r Htok) as (m & Hm & Hg & _).
  pose proof (price_token_shape _ _ _ Htok) as Hshape.
  assert (Hother : forall c', In c' CURRENCY_SYMBOLS -> (c =? c')%N = false ->
                     String_match (c :: body) (symbol_pattern c') = None).
  { intros c' Hc' Hne. apply absent_String_match. simpl.
    rewrite Hne. simpl. now apply no_symbol_absent. }
  unfold CURRENCY_SYMBOLS in Hc, Hother. simpl in Hc.
  destruct Hc as [<-|[<-|[<-|[<-|[]]]]].
  - apply (currencyPass_first [] _ _ _ m tok); auto. intros q [].
  - apply (currencyPass_first [symbol_pattern DOLLAR] _ _ _ m tok); auto.
    intros q [<-|[]]. apply Hother; simpl; auto.
  - apply (currencyPass_first [symbol_pattern DOLLAR; symbol_pattern EURO]
                              _ _ _ m tok); auto.
    intros q [<-|[<-|[]]]; apply Hother; simpl; auto.
  - apply (currencyPass_first
             [symbol_pattern DOLLAR; symbol_pattern EURO; symbol_pattern RUPEE]
             _ _ _ m tok); auto.
    intros q [<-|[<-|[<-|[]]]]; apply Hother; simpl; auto.
Qed.

(** A text without any symbol that starts with an amount: the generic
    pattern decides. *)
Lemma currencyPass_generic_text s tok r :
  no_symbol s = true -> price_token s = Some (tok, r) ->
  currencyPass (Object_values CURRENCY_PATTERNS) s = Some (parseFloat tok).
Proof.
  intros Hs Htok.
  destruct (String_match_generic_head s tok r Htok) as (m & Hm & Hg & _).
  pose proof (price_token_shape _ _ _ Htok) as Hshape.
  apply (currencyPass_first
           [symbol_pattern DOLLAR; symbol_pattern EURO; symbol_pattern RUPEE;
            symbol_pattern POUND] _ [] _ m tok); auto.
  intros q [<-|[<-|[<-|[<-|[]]]]]; apply absent_String_match;
    apply no_symbol_absent; auto; unfold CURRENCY_SYMBOLS; simpl; auto.
Qed.

Lemma extractPrice_currencyPass text price :
  currencyPass (Object_values CURRENCY_PATTERNS) text = Some price ->
  extractPrice text = Some price.
Proof. intros H. unfold extractPrice. now rewrite H. Qed.

Lemma price_token_integer d ds r :
  forallb isDigit (d :: ds) = true ->
  match r with c :: _ => isDigit c = false | [] => True end ->
  fraction r = None ->
  price_token ((d :: ds) ++ r) = Some (d :: ds, r).
Proof.
  intros Hds Hr Hf. unfold price_token.
  rewrite (span_exact isDigit (d :: ds) r Hds Hr). now rewrite Hf.
Qed.

Lemma price_token_decimal d ds a b :
  forallb isDigit (d :: ds) = true -> isDigit a = true -> isDigit b = true ->
  price_token ((d :: ds) ++ [DOT; a; b]) = Some ((d :: ds) ++ [DOT; a; b], []).
Proof.
  intros Hds Ha Hb. unfold price_token.
  rewrite (span_exact isDigit (d :: ds) [DOT; a; b] Hds dot_not_digit).
  unfold fraction. now rewrite N.eqb_refl, Ha, Hb.
Qed.

Lemma span_whitespace_digit d s :
  isDigit d = true -> snd (span isWhiteSpace (d :: s)) = d :: s.
Proof.
  intros Hd. now rewrite (span_head_false _ _ _ (digit_not_whitespace d Hd)).
Qed.

End SymbolTexts.

(* ================================================================== *)
(** * The price extractor: the claims *)
(* ================================================================== *)

Lemma match_here_index r i s m : match_here r i s = Some m -> index m = i.
Proof.
  unfold match_here. destruct (matcher r _ Some); [|discriminate].
  intros H; injection H as <-. reflexivity.
Qed.

Lemma String_match_first text r m :
  String_match text r = Some m ->
  match_here r (index m) (skipn (index m) text) = Some m /\
  forall j, (j < index m)%nat -> match_here r j (skipn j text) = None.
Proof.
  intros H. apply exec_from_leftmost in H as (n & _ & Hm & Hbefore).
  simpl in Hm, Hbefore. rewrite (match_here_index _ _ _ _ Hm). auto.
Qed.

(** C1.  The patterns are tried in the order of the table, the four
    symbol patterns before the generic one.  The first pattern that
    matches the text at all ends the loop: the result is the parsed
    capture of its leftmost match, whatever patterns come after it.  So
    when a symbol pattern matches, the result is the capture of a symbol
    pattern, also when a bare number stands earlier in the text; in
    particular ["$12.50 item #4821"] gives 12.50. *)
Theorem extractPrice_first_matching_pattern :
  Object_values CURRENCY_PATTERNS
  = [symbol_pattern DOLLAR; symbol_pattern EURO; symbol_pattern RUPEE;
     symbol_pattern POUND; amount]
  /\ (forall text before pattern after m,
         In pattern (Object_values CURRENCY_PATTERNS) ->
         (forall q, In q before -> String_match text q = None) ->
         String_match text pattern = Some m ->
         exists tok,
           group 1 m = Some tok /\
           currencyPass (before ++ pattern :: after) text = Some (parseFloat tok) /\
           match_here pattern (index m) (skipn (index m) text) = Some m /\
           (forall j, (j < index m)%nat ->
                      match_here pattern j (skipn j text) = None))
  /\ (forall text before pattern after m,
         Object_values CURRENCY_PATTERNS = before ++ pattern :: after ->
         (forall q, In q before -> String_match text q = None) ->
         String_match text pattern = Some m ->
         exists tok,
           group 1 m = Some tok /\ extractPrice text = Some (parseFloat tok))
  /\ (forall text,
         (exists c, In c CURRENCY_SYMBOLS
                    /\ String_match text (symbol_pattern c) <> None) ->
         exists c m tok,
           In c CURRENCY_SYMBOLS /\
           String_match text (symbol_pattern c) = Some m /\
           group 1 m = Some tok /\
           extractPrice text = Some (parseFloat tok))
  /\ extractPrice (js "$12.50 item #4821") = Some (lit 1250 (-2))
  /\ extractPrice (js "4821 $12.50") = Some (lit 1250 (-2)).
Proof.
  assert (Loop : forall text before pattern after m,
      In pattern (Object_values CURRENCY_PATTERNS) ->
      (forall q, In q before -> String_match text q = None) ->
      String_match text pattern = Some m ->
      exists tok,
        group 1 m = Some tok /\
        currencyPass (before ++ pattern :: after) text = Some (parseFloat tok) /\
        match_here pattern (index m) (skipn (index m) text) = Some m /\
        (forall j, (j < index m)%nat ->
                   match_here pattern j (skipn j text) = None)).
  { intros text before pattern after m Hin Hbefore Hm.
    destruct (String_match_group text pattern m Hin Hm) as (tok & Hg & Hshape).
    exists tok. split; [exact Hg|]. split.
    - eapply currencyPass_first; eassumption.
    - now apply String_match_first. }
  assert (General : forall text before pattern after m,
      Object_values CURRENCY_PATTERNS = before ++ pattern :: after ->
      (forall q, In q before -> String_match text q = None) ->
      String_match text pattern = Some m ->
      exists tok,
        group 1 m = Some tok /\ extractPrice text = Some (parseFloat tok)).
  { intros text before pattern after m Htable Hbefore Hm.
    destruct (Loop text before pattern after m) as (tok & Hg & Hpass & _);
      [rewrite Htable; apply in_elt | exact Hbefore | exact Hm |].
    exists tok. split; [exact Hg|].
    apply extractPrice_currencyPass. now rewrite Htable. }
  split; [reflexivity|]. split; [exact Loop|]. split; [exact General|].
  split; [|split; vm_compute; reflexivity].
  intros text (c & Hc & Hmatch).
  destruct (String_match text (symbol_pattern DOLLAR)) as [m1|] eqn:H1.
  { destruct (General text [] _ _ m1 eq_refl ltac:(intros q []) H1)
      as (tok & Hg & He).
    exists DOLLAR, m1, tok. unfold CURRENCY_SYMBOLS; simpl; tauto. }
  destruct (String_match text (symbol_pattern EURO)) as [m2|] eqn:H2.
  { destruct (General text [symbol_pattern DOLLAR] _ _ m2 eq_refl
                ltac:(intros q [<-|[]]; exact H1) H2) as (tok & Hg & He).
    exists EURO, m2, tok. unfold CURRENCY_SYMBOLS; simpl; tauto. }
  destruct (String_match text (symbol_pattern RUPEE)) as [m3|] eqn:H3.
  { destruct (General text [symbol_pattern DOLLAR; symbol_pattern EURO] _ _ m3
                eq_refl ltac:(intros q [<-|[<-|[]]]; assumption) H3)
      as (tok & Hg & He).
    exists RUPEE, m3, tok. unfold CURRENCY_SYMBOLS; simpl; tauto. }
  destruct (String_match text (symbol_pattern POUND)) as [m4|] eqn:H4.
  { destruct (General text [symbol_pattern DOLLAR; symbol_pattern EURO;
                            symbol_pattern RUPEE] _ _ m4
                eq_refl ltac:(intros q [<-|[<-|[<-|[]]]]; assumption) H4)
      as (tok & Hg & He).
    exists POUND, m4, tok. unfold CURRENCY_SYMBOLS; simpl; tauto. }
  exfalso. apply Hmatch. unfold CURRENCY_SYMBOLS in Hc. simpl in Hc.
  destruct Hc as [<-|[<-|[<-|[<-|[]]]]]; assumption.
Qed.

(** C2.  For every pattern of the table and every amount [D] made of
    digits, a point and exactly two digits, [extractPrice] of the
    pattern's symbol followed by [D] is the Number value of the decimal
    that [D] denotes. *)
Theorem extractPrice_symbol_two_fraction_digits :
  forall pattern d ds a b,
    In pattern (Object_values CURRENCY_PATTERNS) ->
    forallb isDigit (d :: ds) = true -> isDigit a = true -> isDigit b = true ->
    extractPrice (pattern_symbol pattern ++ (d :: ds) ++ [DOT; a; b])
    = Some (number_of_decimal false (digits_value ((d :: ds) ++ [a; b])) (-2)).
Proof.
  intros pattern d ds a b Hp Hds Ha Hb.
  pose proof (price_token_decimal d ds a b Hds Ha Hb) as Htok.
  assert (Hfree : no_symbol ((d :: ds) ++ [DOT; a; b]) = true).
  { rewrite no_symbol_app, (digits_no_symbol _ Hds).
    change [DOT; a; b] with ([DOT] ++ [a; b]).
    rewrite no_symbol_app, (digits_no_symbol [a; b]); [reflexivity|].
    simpl. now rewrite Ha, Hb. }
  pose proof Hds as Hd. simpl in Hd. apply andb_true_iff in Hd as [Hd _].
  rewrite <- (parseFloat_decimal d ds a b Hds Ha Hb).
  apply extractPrice_currencyPass.
  apply pattern_cases in Hp as [(c & Hc & ->) | ->]; simpl pattern_symbol.
  - apply (currencyPass_symbol_text c _ _ []); [exact Hc | exact Hfree |].
    change ((d :: ds) ++ [DOT; a; b]) with (d :: (ds ++ [DOT; a; b])) at 1.
    rewrite span_whitespace_digit by exact Hd. exact Htok.
  - apply (currencyPass_generic_text _ _ []); [exact Hfree | exact Htok].
Qed.

Lemma extractPrice_symbol_two_fraction_digits_witness :
  extractPrice (js "$12.50") = Some (lit 1250 (-2))
  /\ extractPrice (EURO :: js "0.99") = Some (lit 99 (-2))
  /\ extractPrice (js "7.25") = Some (lit 725 (-2)).
Proof.
  split; [|split].
  - apply (extractPrice_symbol_two_fraction_digits
             (symbol_pattern DOLLAR) 49%N [50%N] 53%N 48%N);
      [simpl; tauto | reflexivity | reflexivity | reflexivity].
  - apply (extractPrice_symbol_two_fraction_digits
             (symbol_pattern EURO) 48%N [] 57%N 57%N);
      [simpl; tauto | reflexivity | reflexivity | reflexivity].
  - apply (extractPrice_symbol_two_fraction_digits amount 55%N [] 50%N 53%N);
      [simpl; tauto | reflexivity | reflexivity | reflexivity].
Defined.

(** The filter of the fallback pass: what it returns lies strictly
    between 0 and 10000. *)
Lemma fallbackPass_range text price :
  fallbackPass text = Some price ->
  gt price (lit 0 0) && lt price (lit 10000 0) = true.
Proof.
  unfold fallbackPass.
  destruct (String_match_global text NUMBER_TOKEN) as [numbers|]; [|discriminate].
  set (keep := fun num => gt num (lit 0 0) && lt num (lit 10000 0)).
  destruct (filter keep (map parseFloat numbers)) as [|first rest] eqn:Hf;
    [discriminate|].
  intros H; injection H as <-.
  assert (Hin : In first (filter keep (map parseFloat numbers)))
    by (rewrite Hf; now left).
  apply filter_In in Hin as [_ Hkeep]. exact Hkeep.
Qed.

(** C3.  The filter of the fallback pass keeps only values strictly
    between 0 and 10000 and so refuses ["0.00"] and ["10000"]; but
    [extractPrice] never gets there for these texts, because the generic
    pattern of the table matches them first: it returns 0 and 10000. *)
Theorem extractPrice_bare_number_not_range_checked :
  extractPrice (js "10000") = Some (lit 10000 0)
  /\ extractPrice (js "0.00") = Some (lit 0 0)
  /\ fallbackPass (js "10000") = None
  /\ fallbackPass (js "0.00") = None
  /\ (forall text price,
         fallbackPass text = Some price ->
         gt price (lit 0 0) && lt price (lit 10000 0) = true).
Proof.
  conjuncts; [vm_compute; reflexivity .. | exact fallbackPass_range].
Qed.

(** C4, the claim as stated fails: ["$10000"] is not refused, and
    ["$5"] is matched by the dollar pattern alone. *)
Lemma extractPrice_symbol_integer_counterexample :
  extractPrice (DOLLAR :: js "10000") = Some (lit 10000 0)
  /\ currencyPass [symbol_pattern DOLLAR] (DOLLAR :: js "5") = Some (lit 5 0)
  /\ Some (lit 10000 0) <> None.
Proof.
  conjuncts; try (vm_compute; reflexivity). discriminate.
Qed.

(** C4, amended.  The fraction of a pattern is optional.  An amount
    without fraction digits after a currency symbol is matched by the
    pattern of that symbol, and one with a single fraction digit is
    matched up to the point; the currency pass returns the value of the
    digits and applies no range filter.  So for every symbol [S],
    [S5] gives 5 and [S10000] gives 10000. *)
Theorem extractPrice_symbol_optional_fraction :
  forall c,
    In c CURRENCY_SYMBOLS ->
    (forall d ds,
        forallb isDigit (d :: ds) = true ->
        (exists m, String_match (c :: d :: ds) (symbol_pattern c) = Some m
                   /\ group 1 m = Some (d :: ds))
        /\ currencyPass (Object_values CURRENCY_PATTERNS) (c :: d :: ds)
           = Some (number_of_decimal false (digits_value (d :: ds)) 0)
        /\ extractPrice (c :: d :: ds)
           = Some (number_of_decimal false (digits_value (d :: ds)) 0)
        /\ forall a, isDigit a = true ->
                     extractPrice (c :: (d :: ds) ++ [DOT; a])
                     = Some (number_of_decimal false (digits_value (d :: ds)) 0))
    /\ extractPrice (c :: js "5") = Some (lit 5 0)
    /\ extractPrice (c :: js "10000") = Some (lit 10000 0).
Proof.
  intros c Hc.
  assert (General : forall d ds r,
    forallb isDigit (d :: ds) = true ->
    match r with x :: _ => isDigit x = false | [] => True end ->
    fraction r = None -> no_symbol r = true ->
    (exists m, String_match (c :: (d :: ds) ++ r) (symbol_pattern c) = Some m
               /\ group 1 m = Some (d :: ds))
    /\ currencyPass (Object_values CURRENCY_PATTERNS) (c :: (d :: ds) ++ r)
       = Some (number_of_decimal false (digits_value (d :: ds)) 0)).
  { intros d ds r Hds Hr Hf Hfree.
    pose proof Hds as Hd. simpl in Hd. apply andb_true_iff in Hd as [Hd _].
    pose proof (price_token_integer d ds r Hds Hr Hf) as Htok.
    assert (Htok' : price_token (snd (span isWhiteSpace ((d :: ds) ++ r)))
                    = Some (d :: ds, r)).
    { change ((d :: ds) ++ r) with (d :: (ds ++ r)) at 1.
      rewrite span_whitespace_digit by exact Hd. exact Htok. }
    split.
    - destruct (String_match_symbol_head c _ _ _ Htok') as (m & Hm & Hg & _).
      now exists m.
    - rewrite <- (parseFloat_integer d ds Hds).
      apply (currencyPass_symbol_text c _ _ r); [exact Hc | | exact Htok'].
      rewrite no_symbol_app, (digits_no_symbol _ Hds). exact Hfree. }
  split; [|split].
  - intros d ds Hds.
    destruct (General d ds [] Hds I eq_refl eq_refl) as [Hm Hpass].
    rewrite app_nil_r in Hm, Hpass.
    split; [exact Hm|]. split; [exact Hpass|].
    split; [now apply extractPrice_currencyPass|].
    intros a Ha. apply extractPrice_currencyPass.
    apply (General d ds [DOT; a] Hds dot_not_digit eq_refl).
    change [DOT; a] with ([DOT] ++ [a]).
    rewrite no_symbol_app, (digits_no_symbol [a]); [reflexivity|].
    simpl. now rewrite Ha.
  - apply extractPrice_currencyPass.
    apply (General 53%N [] [] eq_refl I eq_refl eq_refl).
  - apply extractPrice_currencyPass.
    apply (General 49%N [48%N; 48%N; 48%N; 48%N] [] eq_refl I eq_refl eq_refl).
Qed.

Lemma extractPrice_symbol_optional_fraction_witness :
  extractPrice (RUPEE :: js "5") = Some (lit 5 0)
  /\ extractPrice (RUPEE :: js "10000") = Some (lit 10000 0).
Proof.
  apply (extractPrice_symbol_optional_fraction RUPEE).
  unfold CURRENCY_SYMBOLS. simpl. tauto.
Defined.

(** C5.  ["€0.00"] gives 0.00: the euro pattern matches in the currency
    pass, which checks no range, although 0 is not strictly between 0
    and 10000 and the fallback pass would refuse it. *)
Theorem extractPrice_euro_zero :
  extractPrice (EURO :: js "0.00") = Some (lit 0 (-2))
  /\ currencyPass (Object_values CURRENCY_PATTERNS) (EURO :: js "0.00")
     = Some (lit 0 (-2))
  /\ gt (lit 0 (-2)) (lit 0 0) && lt (lit 0 (-2)) (lit 10000 0) = false
  /\ fallbackPass (EURO :: js "0.00") = None.
Proof.
  conjuncts; vm_compute; reflexivity.
Qed.

(** C6, the claim as stated fails: in ["1 $2"] a digit is present, the
    generic pattern would read 1, and the result is the 2 of the dollar
    pattern. *)
Lemma extractPrice_generic_value_counterexample :
  extractPrice (js "1 $2") = Some (lit 2 0)
  /\ (exists m, String_match (js "1 $2") amount = Some m
                /\ option_map parseFloat (group 1 m) = Some (lit 1 0))
  /\ lit 2 0 <> lit 1 0.
Proof.
  split; [vm_compute; reflexivity|]. split; [|vm_compute; discriminate].
  exists (mkMatch 0 (js "1") [(1%nat, js "1")] (js " $2")).
  split; vm_compute; reflexivity.
Qed.

(** C6, amended.  [extractPrice] returns null exactly when the text has
    no decimal digit.  As soon as a digit is present the generic pattern
    matches the text, so the currency pass returns a value: the parsed
    capture of the generic pattern when no symbol pattern matches, that
    of a symbol pattern otherwise.  The result of every call is that of
    the currency pass; the filter of the fallback pass never decides. *)
Theorem extractPrice_null_iff_no_digit :
  (forall text, extractPrice text = None <-> no_digit text = true)
  /\ (forall text,
         no_digit text = false ->
         String_match text amount <> None /\
         exists price,
           currencyPass (Object_values CURRENCY_PATTERNS) text = Some price)
  /\ (forall text m,
         (forall c, In c CURRENCY_SYMBOLS ->
                    String_match text (symbol_pattern c) = None) ->
         String_match text amount = Some m ->
         exists tok, group 1 m = Some tok
                     /\ extractPrice text = Some (parseFloat tok))
  /\ (forall text,
         extractPrice text = currencyPass (Object_values CURRENCY_PATTERNS) text).
Proof.
  assert (Digit : forall text, no_digit text = false ->
            currencyPass (Object_values CURRENCY_PATTERNS) text <> None).
  { intros text H. apply currencyPass_some; [apply incl_refl|].
    exists amount. split; [simpl; tauto|]. now apply digit_String_match_generic. }
  assert (NoDigit : forall text, no_digit text = true -> extractPrice text = None).
  { intros text H. unfold extractPrice.
    rewrite currencyPass_none by (intros q Hq; now apply no_digit_String_match).
    now apply no_digit_fallbackPass. }
  assert (Pass : forall text,
            extractPrice text = currencyPass (Object_values CURRENCY_PATTERNS) text).
  { intros text. destruct (no_digit text) eqn:H.
    - rewrite NoDigit by exact H.
      now rewrite currencyPass_none
        by (intros q Hq; now apply no_digit_String_match).
    - specialize (Digit text H). unfold extractPrice.
      destruct (currencyPass _ text); [reflexivity | congruence]. }
  split; [|split; [|split]].
  - intros text. split; [|apply NoDigit].
    intros H. destruct (no_digit text) eqn:E; [reflexivity|].
    exfalso. apply (Digit text E). now rewrite <- Pass.
  - intros text H. split; [now apply digit_String_match_generic|].
    specialize (Digit text H).
    destruct (currencyPass _ text) as [price|]; [now exists price | congruence].
  - intros text m Hnone Hm.
    destruct (String_match_group text amount m) as (tok & Hg & Hshape);
      [simpl; tauto | exact Hm |].
    exists tok. split; [exact Hg|].
    apply extractPrice_currencyPass.
    apply (currencyPass_first
             [symbol_pattern DOLLAR; symbol_pattern EURO; symbol_pattern RUPEE;
              symbol_pattern POUND] amount [] text m tok); auto.
    intros q [<-|[<-|[<-|[<-|[]]]]]; apply Hnone;
      unfold CURRENCY_SYMBOLS; simpl; tauto.
  - exact Pass.
Qed.

(* ================================================================== *)
(** * The basket totals *)
(* ================================================================== *)

Lemma subtotal_snoc b item :
  subtotal (b ++ [item]) = add (subtotal b) (price item).
Proof. unfold subtotal. now rewrite fold_left_app. Qed.

(** The model of Numbers against the binary64 arithmetic of the
    machine, through the primitive floats of the kernel: the literals
    of the example and the tax computed on it are the same values. *)
Lemma totals_agree_with_binary64 :
  lit 50 (-2) = Prim2SF 0.5%float
  /\ lit 30 (-2) = Prim2SF 0x1.3333333333333p-2%float
  /\ lit 8 (-2) = Prim2SF 0x1.47ae147ae147bp-4%float
  /\ lit 576 (-4) = Prim2SF 0x1.d7dbf487fcb92p-5%float
  /\ subtotal example_basket
     = Prim2SF (0 + 0.5 + 0x1.3333333333333p-2)%float
  /\ taxAmount TAX_RATE example_basket (lit 10 0)
     = Prim2SF (((0 + 0.5 + 0x1.3333333333333p-2)
                 - ((0 + 0.5 + 0x1.3333333333333p-2) * 10 / 100))
                * 0x1.47ae147ae147bp-4)%float.
Proof. conjuncts; vm_compute; reflexivity. Qed.

(** C7, the claim as stated fails: with Numbers the tax on the example
    basket is 0.057600000000000005 and the total 0.7776000000000001;
    neither is the Number 0.0576 or 0.7776. *)
Lemma totals_example_counterexample :
  taxAmount TAX_RATE example_basket (lit 10 0) = lit 57600000000000005 (-18)
  /\ lit 57600000000000005 (-18) <> lit 576 (-4)
  /\ totalBill TAX_RATE example_basket (lit 10 0) = lit 7776000000000001 (-16)
  /\ lit 7776000000000001 (-16) <> lit 7776 (-4).
Proof.
  conjuncts; try (vm_compute; reflexivity); vm_compute; discriminate.
Qed.

(** C7, amended.  For every basket, discount and tax rate, with every
    operation rounded to a Number: the subtotal is the sum of the item
    prices taken from left to right from 0, the discount is
    [subtotal * discount / 100], the tax is
    [(subtotal - discountAmount) * rate] and the total is
    [subtotal - discountAmount + taxAmount].  For the prices 0.50 and
    0.30, a discount of 10 and the rate 0.08 the subtotal is 0.8 and
    the discount 0.08; the tax and the total are the Numbers next above
    0.0576 and 0.7776. *)
Theorem basket_totals :
  (forall rate b discount,
      subtotal [] = lit 0 0
      /\ (forall item, subtotal (b ++ [item]) = add (subtotal b) (price item))
      /\ discountAmount b discount
         = div (mul (subtotal b) discount) (lit 100 0)
      /\ taxAmount rate b discount
         = mul (sub (subtotal b) (discountAmount b discount)) rate
      /\ totalBill rate b discount
         = add (sub (subtotal b) (discountAmount b discount))
               (taxAmount rate b discount))
  /\ map price example_basket = [lit 50 (-2); lit 30 (-2)]
  /\ TAX_RATE = lit 8 (-2)
  /\ subtotal example_basket = lit 80 (-2)
  /\ discountAmount example_basket (lit 10 0) = lit 8 (-2)
  /\ lit 576 (-4) = S754_finite false 8301034833169298 (-57)
  /\ taxAmount TAX_RATE example_basket (lit 10 0)
     = S754_finite false 8301034833169299 (-57)
  /\ lit 7776 (-4) = S754_finite false 7003998140486595 (-53)
  /\ totalBill TAX_RATE example_basket (lit 10 0)
     = S754_finite false 7003998140486596 (-53).
Proof.
  split.
  - intros rate b discount. split; [reflexivity|].
    split; [intros item; apply subtotal_snoc|].
    conjuncts; reflexivity.
  - conjuncts; vm_compute; reflexivity.
Qed.

(* ================================================================== *)
(** * The contrast enhancement *)
(* ================================================================== *)

(** The average must exceed 128: three samples of 128 stay dark, and
    one more unit of light on any of them turns the pixel white. *)
Lemma value_threshold :
  value 128 128 128 = 0 /\ value 128 128 129 = 255
  /\ value 0 129 255 = 0 /\ value 1 129 255 = 255
  /\ value 0 0 0 = 0 /\ value 255 255 255 = 255.
Proof. conjuncts; vm_compute; reflexivity. Qed.

Lemma value_cases r g b : value r g b = 255 \/ value r g b = 0.
Proof. unfold value. destruct (gt _ threshold); auto. Qed.

(** A pixel that has been written is written again with the same value. *)
Lemma value_fixed r g b :
  value (value r g b) (value r g b) (value r g b) = value r g b.
Proof.
  destruct (value_cases r g b) as [-> | ->]; vm_compute; reflexivity.
Qed.

Lemma enhanceContrast_length_upto n :
  forall data,
    (length data <= n)%nat -> length (enhanceContrast data) = length data.
Proof.
  induction n as [|n IH]; intros data Hlen.
  - destruct data; [reflexivity | simpl in Hlen; lia].
  - destruct data as [|r [|g [|b [|a data']]]]; try reflexivity.
    cbn [enhanceContrast length]. rewrite IH by (simpl in Hlen; lia).
    reflexivity.
Qed.

Lemma enhanceContrast_idempotent_upto n :
  forall data,
    (length data <= n)%nat ->
    enhanceContrast (enhanceContrast data) = enhanceContrast data.
Proof.
  induction n as [|n IH]; intros data Hlen.
  - destruct data; [reflexivity | simpl in Hlen; lia].
  - destruct data as [|r [|g [|b [|a data']]]]; try reflexivity.
    + cbn [enhanceContrast]. now rewrite value_fixed.
    + cbn [enhanceContrast]. rewrite value_fixed.
      rewrite IH by (simpl in Hlen; lia). reflexivity.
Qed.

(** C8.  The loop sets the three colour samples of a pixel to 255 when
    their average exceeds 128 and to 0 otherwise, and leaves the alpha
    sample.  Running it on an image it has already processed changes
    nothing: the second run writes, sample for sample, what the first
    run wrote. *)
Theorem enhanceContrast_idempotent :
  (forall r g b a data,
      enhanceContrast (r :: g :: b :: a :: data)
      = (if gt (div (add (add (of_Z r) (of_Z g)) (of_Z b)) (lit 3 0)) (lit 128 0)
         then [255; 255; 255; a] else [0; 0; 0; a])
        ++ enhanceContrast data)
  /\ (forall data, length (enhanceContrast data) = length data)
  /\ (forall data, enhanceContrast (enhanceContrast data) = enhanceContrast data).
Proof.
  split; [|split].
  - intros r g b a data. cbn [enhanceContrast]. unfold value, threshold.
    destruct (gt _ (lit 128 0)); reflexivity.
  - intros data. apply (enhanceContrast_length_upto (length data)). lia.
  - intros data. apply (enhanceContrast_idempotent_upto (length data)). lia.
Qed.

(* ================================================================== *)
(** * Manual entry and the basket *)
(* ================================================================== *)

Lemma positive_not_nan p : negb (isNaN p) && gt p (lit 0 0) = gt p (lit 0 0).
Proof. destruct p; reflexivity. Qed.

Lemma snoc_neq {A : Type} (l : list A) (x : A) : l ++ [x] <> l.
Proof.
  intros H. apply (f_equal (@length A)) in H.
  rewrite length_app in H. simpl in H. lia.
Qed.

(** C9.  Submitting the manual form appends one item with the entered
    price exactly when the text parses to a number greater than 0;
    otherwise the basket, the text and the form stay as they are and
    the error message is set. *)
Theorem handleManualPriceSubmit_adds_iff_positive :
  forall now st,
    (gt (parseFloat (manualPrice st)) (lit 0 0) = true ->
       basket (handleManualPriceSubmit now st)
       = basket st ++ [mkItem (decimal_string now) (js "Manual Item")
                              (parseFloat (manualPrice st))]
       /\ scanError (handleManualPriceSubmit now st) = None
       /\ showManualInput (handleManualPriceSubmit now st) = false)
    /\ (gt (parseFloat (manualPrice st)) (lit 0 0) = false ->
          handleManualPriceSubmit now st
          = setScanError (Some (js "Please enter a valid price")) st
          /\ basket (handleManualPriceSubmit now st) = basket st
          /\ manualPrice (handleManualPriceSubmit now st) = manualPrice st
          /\ showManualInput (handleManualPriceSubmit now st) = showManualInput st
          /\ scanError (handleManualPriceSubmit now st)
             = Some (js "Please enter a valid price"))
    /\ ((exists item, basket (handleManualPriceSubmit now st) = basket st ++ [item])
        <-> gt (parseFloat (manualPrice st)) (lit 0 0) = true).
Proof.
  intros now st. unfold handleManualPriceSubmit.
  rewrite positive_not_nan.
  destruct (gt (parseFloat (manualPrice st)) (lit 0 0)) eqn:Hpos.
  - split; [intros _; conjuncts; reflexivity|]. split; [discriminate|].
    split; [intros _; reflexivity|]. intros _. eexists. reflexivity.
  - split; [discriminate|]. split; [intros _; conjuncts; reflexivity|].
    split; [|discriminate].
    intros [item H]. simpl in H. symmetry in H. now apply snoc_neq in H.
Qed.

(** Both outcomes occur: ["2.50"] is added, and ["0"], ["-3"], ["abc"]
    and the empty text are refused. *)
Lemma handleManualPriceSubmit_examples :
  let st text := mkApp true [] false None false (lit 0 0) false None (js text) true in
  basket (handleManualPriceSubmit 1700000000000 (st "2.50"%string))
  = [mkItem (js "1700000000000") (js "Manual Item") (lit 250 (-2))]
  /\ basket (handleManualPriceSubmit 1700000000000 (st "0"%string)) = []
  /\ basket (handleManualPriceSubmit 1700000000000 (st "-3"%string)) = []
  /\ basket (handleManualPriceSubmit 1700000000000 (st "abc"%string)) = []
  /\ basket (handleManualPriceSubmit 1700000000000 (st ""%string)) = [].
Proof. cbv zeta. conjuncts; vm_compute; reflexivity. Qed.






(* ================================================================== *)
(** * The basket: removal by position *)
(* ================================================================== *)

Lemma filter_index_past {A : Type} (index : nat) (l : list A) :
  forall k,
    (index < k)%nat ->
    filter_index (fun _ i => negb (i =? index)%nat) k l = l.
Proof.
  induction l as [|x l IH]; intros k Hk; simpl; [reflexivity|].
  replace (k =? index)%nat with false by (symmetry; apply Nat.eqb_neq; lia).
  simpl. now rewrite IH by lia.
Qed.

Lemma filter_index_remove {A : Type} (index : nat) (l : list A) :
  forall k,
    (k <= index)%nat ->
    filter_index (fun _ i => negb (i =? index)%nat) k l
    = firstn (index - k) l ++ skipn (S (index - k)) l.
Proof.
  induction l as [|x l IH]; intros k Hk; simpl.
  - now rewrite firstn_nil.
  - destruct (k =? index)%nat eqn:E; simpl.
    + apply Nat.eqb_eq in E. subst k. rewrite Nat.sub_diag. simpl.
      apply filter_index_past. lia.
    + apply Nat.eqb_neq in E. rewrite IH by lia.
      replace (index - k)%nat with (S (index - S k)) by lia. reflexivity.
Qed.

Lemma setBasket_same st : setBasket (basket st) st = st.
Proof. now destruct st. Qed.

(** X1.  Removing the entry at [index] keeps the entries before it in
    place and moves every later entry down by one, unchanged; an index
    past the end removes nothing. *)
Theorem removeItemFromBasket_shifts :
  forall st index,
    basket (removeItemFromBasket index st)
    = firstn index (basket st) ++ skipn (S index) (basket st)
    /\ ((index < length (basket st))%nat ->
        S (length (basket (removeItemFromBasket index st))) = length (basket st)
        /\ forall j,
            nth_error (basket (removeItemFromBasket index st)) j
            = if (j <? index)%nat then nth_error (basket st) j
              else nth_error (basket st) (S j))
    /\ ((length (basket st) <= index)%nat -> removeItemFromBasket index st = st).
Proof.
  intros st index.
  assert (Hb : basket (removeItemFromBasket index st)
               = firstn index (basket st) ++ skipn (S index) (basket st)).
  { simpl. rewrite filter_index_remove by lia. now rewrite Nat.sub_0_r. }
  split; [exact Hb|]. split.
  - intros Hlt. rewrite Hb. split.
    + rewrite length_app, length_firstn, length_skipn. lia.
    + intros j. destruct (j <? index)%nat eqn:E.
      * apply Nat.ltb_lt in E.
        rewrite nth_error_app1 by (rewrite length_firstn; lia).
        rewrite nth_error_firstn.
        now replace (j <? index)%nat with true by (symmetry; apply Nat.ltb_lt; lia).
      * apply Nat.ltb_ge in E.
        rewrite nth_error_app2 by (rewrite length_firstn; lia).
        rewrite length_firstn, nth_error_skipn.
        f_equal. lia.
  - intros Hge. unfold removeItemFromBasket.
    rewrite filter_index_remove by lia. rewrite Nat.sub_0_r.
    rewrite firstn_all2 by lia. rewrite skipn_all2 by lia.
    rewrite app_nil_r. apply setBasket_same.
Qed.

(** X2.  Adding an item and then removing the last position gives the
    state back. *)
Theorem add_then_remove_last :
  forall st item,
    removeItemFromBasket (length (basket st)) (addItemToBasket item st) = st.
Proof.
  intros st item. unfold removeItemFromBasket.
  rewrite filter_index_remove by lia. rewrite Nat.sub_0_r.
  cbn [addItemToBasket setBasket basket].
  rewrite firstn_app, Nat.sub_diag, firstn_all. simpl firstn.
  rewrite skipn_all2 by (rewrite length_app; simpl; lia).
  rewrite !app_nil_r. now destruct st.
Qed.

(* ================================================================== *)
(** * Prices are numbers that are not negative *)
(* ================================================================== *)

Lemma lit_zero : lit 0 0 = S754_zero false.
Proof. reflexivity. Qed.

Lemma binary_round_aux_nonnegative mx ex lx :
  0 <= mx -> nonnegative (binary_round_aux prec emax false mx ex lx) = true.
Proof.
  intros Hm. unfold binary_round_aux.
  pose proof (shr_fexp_nonneg mx ex lx Hm) as H1.
  destruct (shr_fexp prec emax mx ex lx) as [mrs' e']; simpl in H1.
  pose proof (shr_fexp_nonneg _ e' loc_Exact
                (round_nearest_even_nonneg _ (loc_of_shr_record mrs') H1)) as H2.
  destruct (shr_fexp prec emax _ e' loc_Exact) as [mrs'' e'']; simpl in H2.
  destruct (shr_m mrs'') as [|p|p]; [reflexivity | | lia].
  destruct (e'' <=? emax - prec); reflexivity.
Qed.

Lemma number_of_decimal_nonnegative m e :
  nonnegative (number_of_decimal false m e) = true.
Proof.
  unfold number_of_decimal.
  destruct (m * 10 ^ Z.max e 0) as [|p|p]; try reflexivity.
  unfold SFdiv.
  pose proof (SFdiv_core_binary_nonneg p 0 (Z.to_pos (10 ^ Z.max (- e) 0)) 0) as H.
  destruct (SFdiv_core_binary prec emax (Zpos p) 0 _ 0) as [[mz ez] lz].
  simpl in H. now apply binary_round_aux_nonnegative.
Qed.

Lemma parseFloat_amount_nonnegative tok :
  amount_shape tok -> nonnegative (parseFloat tok) = true.
Proof.
  intros [d ds H | d ds a b H Ha Hb].
  - rewrite parseFloat_integer by exact H. apply number_of_decimal_nonnegative.
  - rewrite parseFloat_decimal by assumption. apply number_of_decimal_nonnegative.
Qed.

Lemma gt_zero_nonnegative p : gt p (lit 0 0) = true -> nonnegative p = true.
Proof.
  rewrite lit_zero. destruct p as [s|s| |s m e]; simpl; try discriminate;
    destruct s; simpl; try discriminate; reflexivity.
Qed.

Lemma nonnegative_not_nan p : nonnegative p = true -> isNaN p = false.
Proof.
  destruct p as [[]|[]| |[] m e]; simpl; intros H; try discriminate; reflexivity.
Qed.

Lemma nonnegative_not_below_zero p :
  nonnegative p = true -> lt p (lit 0 0) = false.
Proof.
  rewrite lit_zero.
  destruct p as [[]|[]| |[] m e]; simpl; intros H; try discriminate; reflexivity.
Qed.

(** What the loop returns is the parsed capture of an amount. *)
Lemma currencyPass_result patterns text price :
  incl patterns (Object_values CURRENCY_PATTERNS) ->
  currencyPass patterns text = Some price ->
  exists tok, amount_shape tok /\ price = parseFloat tok.
Proof.
  induction patterns as [|r patterns IH]; intros Hincl H; [discriminate|].
  assert (Hincl' : incl patterns (Object_values CURRENCY_PATTERNS))
    by (intros x Hx; apply Hincl; now right).
  destruct (String_match text r) as [m|] eqn:Hm.
  - destruct (String_match_group text r m) as (tok & Hg & Hshape);
      [apply Hincl; now left | exact Hm |].
    rewrite (currencyPass_hit r patterns text m tok Hm Hg Hshape) in H.
    injection H as <-. now exists tok.
  - rewrite currencyPass_miss in H by exact Hm. now apply IH.
Qed.

(** The sum of two Numbers that are not negative is not negative. *)
Lemma add_nonnegative x y :
  nonnegative x = true -> nonnegative y = true -> nonnegative (add x y) = true.
Proof.
  destruct x as [[]|[]| |[] mx ex], y as [[]|[]| |[] my ey];
    simpl; try discriminate; try reflexivity.
  intros _ _. unfold add, SFadd. cbn [cond_Zopp]. 
  set (a := fst (shl_align mx ex (Z.min ex ey))).
  set (b := fst (shl_align my ey (Z.min ex ey))).
  change (Zpos a + Zpos b) with (Zpos (a + b)).
  unfold binary_normalize, binary_round.
  destruct (shl_align (a + b) (Z.min ex ey) _) as [mz ez].
  now apply binary_round_aux_nonnegative.
Qed.

Lemma subtotal_nonnegative b :
  Forall (fun item => nonnegative (price item) = true) b ->
  nonnegative (subtotal b) = true.
Proof.
  intros H. unfold subtotal.
  assert (G : forall acc, nonnegative acc = true ->
                nonnegative (fold_left (fun sum item => add sum (price item)) b acc)
                = true).
  { induction H as [|item b Hitem Hb IH]; intros acc Hacc; simpl; [exact Hacc|].
    apply IH. now apply add_nonnegative. }
  apply G. reflexivity.
Qed.

(** X3.  Whatever the text, a price that [extractPrice] returns is a
    Number that is not NaN and not negative; it can be 0, and it can be
    Infinity when the amount has enough digits. *)
Theorem extractPrice_nonnegative :
  (forall text price,
      extractPrice text = Some price ->
      nonnegative price = true /\ isNaN price = false
      /\ lt price (lit 0 0) = false)
  /\ extractPrice (js "0") = Some (S754_zero false)
  /\ extractPrice (repeat 57%N 400) = Some (S754_infinity false).
Proof.
  split; [|split; vm_compute; reflexivity].
  intros text price H.
  assert (Hn : nonnegative price = true).
  { unfold extractPrice in H.
    destruct (currencyPass _ text) as [p|] eqn:Hpass.
    - injection H as <-.
      apply currencyPass_result in Hpass as (tok & Hshape & ->);
        [|apply incl_refl].
      now apply parseFloat_amount_nonnegative.
    - apply fallbackPass_range in H. apply andb_true_iff in H as [H _].
      now apply gt_zero_nonnegative. }
  split; [exact Hn|]. split.
  - now apply nonnegative_not_nan.
  - now apply nonnegative_not_below_zero.
Qed.

Lemma filter_index_Forall {A : Type} (P : A -> Prop) f (l : list A) :
  forall i, Forall P l -> Forall P (filter_index f i l).
Proof.
  induction l as [|x l IH]; intros i H; simpl; [constructor|].
  inversion H; subst. destruct (f x i); [constructor|]; auto.
Qed.

(** X4.  In every basket that the handlers can produce, every price is
    a Number that is not NaN and not negative, and so is the subtotal
    of the basket. *)
Theorem reachable_prices_nonnegative :
  forall b,
    reachable b ->
    Forall (fun item => nonnegative (price item) = true
                        /\ isNaN (price item) = false) b
    /\ nonnegative (subtotal b) = true
    /\ isNaN (subtotal b) = false.
Proof.
  assert (Inv : forall b, reachable b ->
                  Forall (fun item => nonnegative (price item) = true) b).
  { intros b H. induction H as [|st item _ IH Hin|st now text item _ IH Hscan
                                |st now code _ IH|st now _ IH|st index _ IH].
    - constructor.
    - cbn [addItemToBasket setBasket basket]. apply Forall_app. split; [exact IH|].
      constructor; [|constructor].
      simpl in Hin.
      destruct Hin as [<-|[<-|[<-|[<-|[<-|[<-|[]]]]]]]; vm_compute; reflexivity.
    - cbn [addItemToBasket setBasket basket]. apply Forall_app. split; [exact IH|].
      constructor; [|constructor].
      unfold scannedItem in Hscan.
      destruct (extractPrice text) as [p|] eqn:Hp; [|discriminate].
      injection Hscan as <-. cbn [price].
      unfold extractPrice in Hp.
      destruct (currencyPass _ text) as [q|] eqn:Hpass.
      + injection Hp as <-.
        apply currencyPass_result in Hpass as (tok & Hshape & ->);
          [|apply incl_refl].
        now apply parseFloat_amount_nonnegative.
      + apply fallbackPass_range in Hp. apply andb_true_iff in Hp as [Hp _].
        now apply gt_zero_nonnegative.
    - cbn [addItemToBasket setBasket basket]. apply Forall_app. split; [exact IH|].
      constructor; [|constructor]. vm_compute. reflexivity.
    - unfold handleManualPriceSubmit. rewrite positive_not_nan.
      destruct (gt (parseFloat (manualPrice st)) (lit 0 0)) eqn:Hpos.
      + cbn [addItemToBasket setBasket setManualPrice setShowManualInput
               setScanError basket].
        apply Forall_app. split; [exact IH|].
        constructor; [|constructor]. now apply gt_zero_nonnegative.
      + exact IH.
    - cbn [removeItemFromBasket setBasket basket].
      now apply filter_index_Forall. }
  intros b H. specialize (Inv b H). split; [|split].
  - eapply Forall_impl; [|exact Inv]. intros item Hitem.
    split; [exact Hitem | now apply nonnegative_not_nan].
  - now apply subtotal_nonnegative.
  - apply nonnegative_not_nan. now apply subtotal_nonnegative.
Qed.

Lemma reachable_prices_nonnegative_witness :
  nonnegative (subtotal [mkItem (js "1") (js "Apple") (lit 50 (-2))]) = true.
Proof.
  apply (reachable_prices_nonnegative [mkItem (js "1") (js "Apple") (lit 50 (-2))]).
  apply (reach_sample (mkApp false [] false None false (lit 0 0) false None [] false)
                      (mkItem (js "1") (js "Apple") (lit 50 (-2))));
    [apply reach_init | simpl; tauto].
Defined.

(* ================================================================== *)
(** * The price extractor on noisy text *)
(* ================================================================== *)

(** The fallback pass never decides (proved again here, apart from the
    theorem of C6, for the use of the lemmas below). *)
Lemma extractPrice_is_currencyPass text :
  extractPrice text = currencyPass (Object_values CURRENCY_PATTERNS) text.
Proof.
  unfold extractPrice.
  destruct (currencyPass _ text) as [p|] eqn:Hpass; [reflexivity|].
  destruct (no_digit text) eqn:Hd; [now apply no_digit_fallbackPass|].
  exfalso. revert Hpass. apply currencyPass_some; [apply incl_refl|].
  exists amount. split; [simpl; tauto|]. now apply digit_String_match_generic.
Qed.

Lemma noise_not_symbol a c :
  noise a = true -> In c CURRENCY_SYMBOLS -> (a =? c)%N = false.
Proof.
  unfold noise. intros H Hc. apply andb_true_iff in H as [_ H].
  apply negb_true_iff in H.
  destruct (a =? c)%N eqn:E; [|reflexivity].
  assert (existsb (N.eqb a) CURRENCY_SYMBOLS = true); [|congruence].
  apply existsb_exists. now exists c.
Qed.

Lemma noise_match_here r i a t :
  In r (Object_values CURRENCY_PATTERNS) ->
  noise a = true -> match_here r i (a :: t) = None.
Proof.
  intros Hr Ha. apply pattern_cases in Hr as [(c & Hc & ->) | ->].
  - rewrite match_here_symbol. now rewrite (noise_not_symbol a c Ha Hc).
  - rewrite match_here_amount, price_token_head_not_digit; [reflexivity|].
    unfold noise in Ha. apply andb_true_iff in Ha as [Ha _].
    now apply negb_true_iff.
Qed.

Lemma match_here_reindex r i j s :
  match_here r i s
  = option_map (fun m => mkMatch i (matched m) (groups m) (after m))
               (match_here r j s).
Proof. unfold match_here. destruct (matcher r _ Some); reflexivity. Qed.

(** The index a search starts to count from does not change what it
    captures. *)
Lemma exec_from_groups r s :
  forall i j,
    option_map groups (exec_from r i s) = option_map groups (exec_from r j s).
Proof.
  induction s as [|a s IH]; intros i j; cbn [exec_from];
    rewrite (match_here_reindex r i j);
    destruct (match_here r j _) as [m|]; simpl; auto.
Qed.

Lemma exec_from_skip_noise r prefix s :
  In r (Object_values CURRENCY_PATTERNS) ->
  forallb noise prefix = true ->
  forall i, exec_from r i (prefix ++ s) = exec_from r (i + length prefix) s.
Proof.
  intros Hr. induction prefix as [|a prefix IH]; intros Hp i; simpl.
  - now rewrite Nat.add_0_r.
  - simpl in Hp. apply andb_true_iff in Hp as [Ha Hp].
    change (exec_from r i (a :: prefix ++ s))
      with (match match_here r i (a :: prefix ++ s) with
            | Some m => Some m
            | None => exec_from r (S i) (prefix ++ s)
            end).
    rewrite (noise_match_here r i a _ Hr Ha), IH by exact Hp.
    f_equal. lia.
Qed.

Lemma currencyPass_skip_noise prefix text patterns :
  incl patterns (Object_values CURRENCY_PATTERNS) ->
  forallb noise prefix = true ->
  currencyPass patterns (prefix ++ text) = currencyPass patterns text.
Proof.
  intros Hincl Hp. induction patterns as [|r patterns IH]; [reflexivity|].
  assert (Hr : In r (Object_values CURRENCY_PATTERNS)) by (apply Hincl; now left).
  assert (IH' : currencyPass patterns (prefix ++ text) = currencyPass patterns text)
    by (apply IH; intros x Hx; apply Hincl; now right).
  assert (Hg : option_map groups (String_match (prefix ++ text) r)
               = option_map groups (String_match text r)).
  { unfold String_match. rewrite (exec_from_skip_noise r prefix text Hr Hp).
    apply exec_from_groups. }
  cbn [currencyPass].
  destruct (String_match (prefix ++ text) r) as [m|],
           (String_match text r) as [m'|]; simpl in Hg; try discriminate.
  - injection Hg as Hg. unfold group. rewrite Hg.
    destruct (option_map snd _) as [[|c tok]|]; try exact IH'.
    destruct (negb (isNaN (parseFloat (c :: tok)))); [reflexivity | exact IH'].
  - exact IH'.
Qed.

(** X5.  Characters in front of the text that are neither digits nor
    currency symbols (letters, spaces, punctuation) do not change the
    result. *)
Theorem extractPrice_skips_leading_noise :
  forall prefix text,
    forallb noise prefix = true ->
    extractPrice (prefix ++ text) = extractPrice text.
Proof.
  intros prefix text Hp. rewrite !extractPrice_is_currencyPass.
  apply currencyPass_skip_noise; [apply incl_refl | exact Hp].
Qed.

Lemma extractPrice_skips_leading_noise_witness :
  extractPrice (js "Price: " ++ js "$4.20") = extractPrice (js "$4.20").
Proof.
  apply (extractPrice_skips_leading_noise (js "Price: ") (js "$4.20")).
  reflexivity.
Defined.

Lemma whitespace_noise ws : forallb isWhiteSpace ws = true -> forallb noise ws = true.
Proof.
  induction ws as [|a ws IH]; simpl; [reflexivity|].
  intros H. apply andb_true_iff in H as [Ha Hws]. rewrite IH by exact Hws.
  rewrite andb_true_r. unfold noise.
  rewrite (whitespace_not_digit a Ha). simpl.
  unfold isWhiteSpace in Ha.
  repeat rewrite ?orb_true_iff, ?andb_true_iff, ?N.leb_le, ?N.eqb_eq in Ha.
  unfold CURRENCY_SYMBOLS, DOLLAR, EURO, RUPEE, POUND. cbn [existsb].
  replace (a =? 36)%N with false by (symmetry; apply N.eqb_neq; lia).
  replace (a =? 8364)%N with false by (symmetry; apply N.eqb_neq; lia).
  replace (a =? 8377)%N with false by (symmetry; apply N.eqb_neq; lia).
  replace (a =? 163)%N with false by (symmetry; apply N.eqb_neq; lia).
  reflexivity.
Qed.

Lemma noise_no_symbol s : forallb noise s = true -> no_symbol s = true.
Proof.
  unfold no_symbol. induction s as [|a s IH]; cbn [forallb]; [reflexivity|].
  intros H. apply andb_true_iff in H as [Ha Hs]. rewrite IH by exact Hs.
  unfold noise in Ha. apply andb_true_iff in Ha as [_ Ha]. now rewrite Ha.
Qed.

Lemma price_token_decimal_tail d ds a b tail :
  forallb isDigit (d :: ds) = true -> isDigit a = true -> isDigit b = true ->
  price_token ((d :: ds) ++ DOT :: a :: b :: tail)
  = Some ((d :: ds) ++ [DOT; a; b], tail).
Proof.
  intros Hds Ha Hb. unfold price_token.
  rewrite (span_exact isDigit (d :: ds) (DOT :: a :: b :: tail) Hds dot_not_digit).
  unfold fraction. now rewrite N.eqb_refl, Ha, Hb.
Qed.

Lemma span_whitespace_run ws d s :
  forallb isWhiteSpace ws = true -> isDigit d = true ->
  snd (span isWhiteSpace (ws ++ d :: s)) = d :: s.
Proof.
  intros Hws Hd.
  now rewrite (span_exact isWhiteSpace ws (d :: s) Hws (digit_not_whitespace d Hd)).
Qed.

(** X6.  A currency symbol, any white space, then digits, a point and
    two digits: the result is the value of that amount, whatever
    follows it.  After the dollar sign the rest of the text is free;
    for the other patterns it must hold no currency symbol. *)
Theorem extractPrice_amount_then_anything :
  forall ws d ds a b tail,
    forallb isWhiteSpace ws = true ->
    forallb isDigit (d :: ds) = true -> isDigit a = true -> isDigit b = true ->
    extractPrice (DOLLAR :: ws ++ (d :: ds) ++ DOT :: a :: b :: tail)
    = Some (number_of_decimal false (digits_value ((d :: ds) ++ [a; b])) (-2))
    /\ forall pattern,
        In pattern (Object_values CURRENCY_PATTERNS) ->
        no_symbol tail = true ->
        extractPrice (pattern_symbol pattern
                      ++ ws ++ (d :: ds) ++ DOT :: a :: b :: tail)
        = Some (number_of_decimal false (digits_value ((d :: ds) ++ [a; b])) (-2)).
Proof.
  intros ws d ds a b tail Hws Hds Ha Hb.
  pose proof (price_token_decimal_tail d ds a b tail Hds Ha Hb) as Htok.
  pose proof Hds as Hd. simpl in Hd. apply andb_true_iff in Hd as [Hd _].
  assert (Hspan : price_token (snd (span isWhiteSpace
                     (ws ++ (d :: ds) ++ DOT :: a :: b :: tail)))
                  = Some ((d :: ds) ++ [DOT; a; b], tail)).
  { change ((d :: ds) ++ DOT :: a :: b :: tail)
      with (d :: (ds ++ DOT :: a :: b :: tail)).
    rewrite (span_whitespace_run ws d _ Hws Hd). exact Htok. }
  pose proof (price_token_shape _ _ _ Htok) as Hshape.
  rewrite <- (parseFloat_decimal d ds a b Hds Ha Hb).
  split.
  - apply extractPrice_currencyPass.
    destruct (String_match_symbol_head DOLLAR _ _ _ Hspan) as (m & Hm & Hg & _).
    apply (currencyPass_first [] _ _ _ m _); auto. intros q [].
  - intros pattern Hp Htail.
    assert (Hfree : no_symbol ((d :: ds) ++ DOT :: a :: b :: tail) = true).
    { rewrite no_symbol_app, (digits_no_symbol _ Hds).
      change (DOT :: a :: b :: tail) with ([DOT] ++ [a; b] ++ tail).
      rewrite !no_symbol_app, (digits_no_symbol [a; b]), Htail; [reflexivity|].
      simpl. now rewrite Ha, Hb. }
    apply pattern_cases in Hp as [(c & Hc & ->) | ->].
    + apply extractPrice_currencyPass.
      change (pattern_symbol (symbol_pattern c)) with [c].
      apply (currencyPass_symbol_text c _ _ tail); [exact Hc | | exact Hspan].
      rewrite no_symbol_app, Hfree, andb_true_r.
      apply noise_no_symbol. now apply whitespace_noise.
    + change (pattern_symbol amount) with (@nil char). rewrite app_nil_l.
      rewrite extractPrice_is_currencyPass.
      rewrite currencyPass_skip_noise;
        [|apply incl_refl | now apply whitespace_noise].
      apply (currencyPass_generic_text _ _ tail); [exact Hfree | exact Htok].
Qed.

Lemma extractPrice_amount_then_anything_witness :
  extractPrice (js "$ 12.505 or $3.00")
  = Some (number_of_decimal false 1250 (-2)).
Proof.
  apply (extractPrice_amount_then_anything
           (js " ") 49%N [50%N] 53%N 48%N (js "5 or $3.00"));
    reflexivity.
Defined.

(* ================================================================== *)
(** * The discount field *)
(* ================================================================== *)

Lemma lit_hundred : lit 100 0 = S754_finite false 7036874417766400 (-46).
Proof. vm_compute. reflexivity. Qed.







(* ================================================================== *)
(** * Ids made from the clock *)
(* ================================================================== *)

Lemma js_injective s t : js s = js t -> s = t.
Proof.
  revert t. induction s as [|a s IH]; intros [|b t] H; simpl in H;
    try discriminate; [reflexivity|].
  injection H as Hab Hst. f_equal; [|now apply IH].
  rewrite <- (ascii_N_embedding a), <- (ascii_N_embedding b). now rewrite Hab.
Qed.

Lemma to_uint_nonnil n : N.to_uint n <> Decimal.Nil.
Proof.
  destruct n as [|p]; [discriminate|]. apply DecimalPos.Unsigned.to_uint_nonnil.
Qed.

Lemma decimal_string_injective n m :
  decimal_string n = decimal_string m -> n = m.
Proof.
  unfold decimal_string. intros H. apply js_injective in H.
  apply (f_equal NilZero.uint_of_string) in H.
  rewrite !NilZero.usu in H by apply to_uint_nonnil.
  injection H as H. now apply DecimalN.Unsigned.to_uint_inj.
Qed.

(** X8.  Two items made at different readings of the clock have
    different ids, and a reading of the clock is a catalog id only when
    it is one of 1 to 6. *)
Theorem clock_ids_distinct :
  (forall n m, decimal_string n = decimal_string m <-> n = m)
  /\ (forall n item,
         In item SAMPLE_ITEMS -> id item = decimal_string n ->
         (1 <= n <= 6)%N)
  /\ (forall now item name price,
         (6 < now)%N -> In item SAMPLE_ITEMS ->
         id (mkItem (decimal_string now) name price) <> id item).
Proof.
  assert (Catalog : forall n item,
             In item SAMPLE_ITEMS -> id item = decimal_string n ->
             (1 <= n <= 6)%N).
  { intros n item Hin Hid. simpl in Hin.
    destruct Hin as [<-|[<-|[<-|[<-|[<-|[<-|[]]]]]]]; cbn [id] in Hid.
    - apply (decimal_string_injective 1 n) in Hid. lia.
    - apply (decimal_string_injective 2 n) in Hid. lia.
    - apply (decimal_string_injective 3 n) in Hid. lia.
    - apply (decimal_string_injective 4 n) in Hid. lia.
    - apply (decimal_string_injective 5 n) in Hid. lia.
    - apply (decimal_string_injective 6 n) in Hid. lia. }
  split; [|split].
  - intros n m. split; [apply decimal_string_injective | now intros ->].
  - exact Catalog.
  - intros now item name price Hnow Hin Hid. cbn [id] in Hid.
    symmetry in Hid. apply (Catalog now item Hin) in Hid. lia.
Qed.

(* ================================================================== *)
(** * The enhanced image is black and white *)
(* ================================================================== *)

Lemma enhanceContrast_samples_upto n :
  forall data i,
    (length data <= n)%nat -> (i < length data)%nat ->
    (i mod 4 = 3)%nat /\ nth i (enhanceContrast data) 0 = nth i data 0
    \/ (i mod 4 <> 3)%nat
       /\ (nth i (enhanceContrast data) 0 = 0
           \/ nth i (enhanceContrast data) 0 = 255).
Proof.
  induction n as [|n IH]; intros data i Hlen Hi.
  - destruct data; simpl in *; lia.
  - destruct data as [|r [|g [|b [|a data']]]].
    + simpl in Hi. lia.
    + simpl in Hi. replace i with 0%nat by lia. right. simpl. auto.
    + simpl in Hi. right.
      destruct i as [|[|i]]; [simpl; auto | simpl; auto | lia].
    + simpl in Hi. right. cbn [enhanceContrast].
      destruct (value_cases r g b) as [-> | ->];
        destruct i as [|[|[|i]]]; try lia; simpl; auto.
    + cbn [enhanceContrast].
      destruct i as [|[|[|[|i]]]].
      * right. destruct (value_cases r g b) as [-> | ->]; simpl; auto.
      * right. destruct (value_cases r g b) as [-> | ->]; simpl; auto.
      * right. destruct (value_cases r g b) as [-> | ->]; simpl; auto.
      * left. simpl. auto.
      * change (nth (S (S (S (S i)))) (value r g b :: value r g b :: value r g b
                                                    :: a :: enhanceContrast data') 0)
          with (nth i (enhanceContrast data') 0).
        change (nth (S (S (S (S i)))) (r :: g :: b :: a :: data') 0)
          with (nth i data' 0).
        replace (S (S (S (S i))) mod 4)%nat with (i mod 4)%nat.
        -- apply IH; simpl in *; lia.
        -- replace (S (S (S (S i)))) with (i + 1 * 4)%nat by lia.
           now rewrite Nat.Div0.mod_add.
Qed.

Lemma enhanceContrast_grey_upto n :
  forall data k,
    (length data <= n)%nat -> (4 * k + 2 < length data)%nat ->
    nth (4 * k + 1) (enhanceContrast data) 0 = nth (4 * k) (enhanceContrast data) 0
    /\ nth (4 * k + 2) (enhanceContrast data) 0 = nth (4 * k) (enhanceContrast data) 0.
Proof.
  induction n as [|n IH]; intros data k Hlen Hk.
  - destruct data; simpl in *; lia.
  - destruct data as [|r [|g [|b [|a data']]]]; try (simpl in Hk; lia).
    + simpl in Hk. replace k with 0%nat by lia. simpl. auto.
    + destruct k as [|k]; [simpl; auto|].
      cbn [enhanceContrast].
      replace (4 * S k + 1)%nat with (S (S (S (S (4 * k + 1))))) by lia.
      replace (4 * S k + 2)%nat with (S (S (S (S (4 * k + 2))))) by lia.
      replace (4 * S k)%nat with (S (S (S (S (4 * k))))) by lia.
      cbn [nth]. apply IH; simpl in *; lia.
Qed.

(** X9.  In the enhanced image every colour sample is 0 or 255, the
    three colour samples of a pixel are equal, and every alpha sample
    is the one of the frame. *)
Theorem enhanceContrast_black_and_white :
  forall data,
    (forall i, (i < length data)%nat ->
        (i mod 4 = 3)%nat /\ nth i (enhanceContrast data) 0 = nth i data 0
        \/ (i mod 4 <> 3)%nat
           /\ (nth i (enhanceContrast data) 0 = 0
               \/ nth i (enhanceContrast data) 0 = 255))
    /\ (forall k, (4 * k + 2 < length data)%nat ->
          nth (4 * k + 1) (enhanceContrast data) 0
          = nth (4 * k) (enhanceContrast data) 0
          /\ nth (4 * k + 2) (enhanceContrast data) 0
             = nth (4 * k) (enhanceContrast data) 0).
Proof.
  intros data. split.
  - intros i Hi. apply (enhanceContrast_samples_upto (length data)); [lia | exact Hi].
  - intros k Hk. apply (enhanceContrast_grey_upto (length data)); [lia | exact Hk].
Qed.

(* ================================================================== *)
(** * A scan *)
(* ================================================================== *)

Lemma extractPrice_none_iff text :
  extractPrice text = None <-> no_digit text = true.
Proof.
  rewrite extractPrice_is_currencyPass. split.
  - intros H. destruct (no_digit text) eqn:Hd; [reflexivity|].
    exfalso. revert H. apply currencyPass_some; [apply incl_refl|].
    exists amount. split; [simpl; tauto|]. now apply digit_String_match_generic.
  - intros H. apply currencyPass_none. intros q Hq.
    now apply no_digit_String_match.
Qed.

(** X10.  A scan adds an item exactly when every call on the OCR worker
    resolves and the recognised text holds a decimal digit: the basket
    then ends with one new item that carries the extracted price, the
    error is cleared and the camera view closed.  In every other case
    the basket is as it was, an error message is set and the manual
    form is shown.  In all cases the scanning flag is off at the end. *)
Theorem processImage_outcomes :
  forall ocr now st,
    isScanning (processImage ocr now st) = false
    /\ (rejects ocr = None -> no_digit (text_of ocr) = false ->
        exists price,
          extractPrice (text_of ocr) = Some price
          /\ basket (processImage ocr now st)
             = basket st ++ [mkItem (decimal_string now) (js "Scanned Item") price]
          /\ scanError (processImage ocr now st) = None
          /\ showCamera (processImage ocr now st) = false
          /\ showManualInput (processImage ocr now st) = showManualInput st)
    /\ (rejects ocr <> None \/ no_digit (text_of ocr) = true ->
        basket (processImage ocr now st) = basket st
        /\ scanError (processImage ocr now st) <> None
        /\ showManualInput (processImage ocr now st) = true
        /\ showCamera (processImage ocr now st) = showCamera st)
    /\ ((exists item, basket (processImage ocr now st) = basket st ++ [item])
        <-> rejects ocr = None /\ no_digit (text_of ocr) = false).
Proof.
  intros ocr now st. unfold processImage, processImage_finish, processImage_start.
  destruct (rejects ocr) as [c|] eqn:Hrej.
  - split; [reflexivity|]. split; [discriminate|].
    split; [intros _; conjuncts; try reflexivity; discriminate|].
    split; [|intros [H _]; discriminate].
    intros [item H]. simpl in H. symmetry in H. now apply snoc_neq in H.
  - destruct (extractPrice (text_of ocr)) as [price|] eqn:Hp.
    + assert (Hd : no_digit (text_of ocr) = false).
      { destruct (no_digit (text_of ocr)) eqn:Hd; [|reflexivity].
        apply extractPrice_none_iff in Hd. congruence. }
      split; [reflexivity|]. split.
      * intros _ _. exists price. conjuncts; reflexivity.
      * split; [intros [H|H]; congruence|].
        split; [intros _; now split|]. intros _. eexists. reflexivity.
    + assert (Hd : no_digit (text_of ocr) = true) by now apply extractPrice_none_iff.
      split; [reflexivity|]. split; [intros _ H; congruence|].
      split; [intros _; conjuncts; try reflexivity; discriminate|].
      split; [|intros [_ H]; congruence].
      intros [item H]. simpl in H. symmetry in H. now apply snoc_neq in H.
Qed.

(** X11.  The worker is terminated only when no call before
    [terminate] rejects.  When [loadLanguage], [initialize],
    [setParameters] or [recognize] rejects, a worker has been created
    and [terminate] is never called on it.  When [terminate] itself
    rejects, no item is added, whatever the recognised text. *)
Theorem worker_terminated_iff :
  forall ocr,
    (In Terminate (worker_calls ocr)
     <-> rejects ocr = None \/ rejects ocr = Some Terminate)
    /\ (forall c, rejects ocr = Some c ->
          In c [LoadLanguage; Initialize; SetParameters; Recognize] ->
          In CreateWorker (worker_calls ocr) /\ ~ In Terminate (worker_calls ocr))
    /\ (exists rest, WORKER_CALLS = worker_calls ocr ++ rest)
    /\ (forall now st,
          rejects ocr = Some Terminate ->
          basket (processImage ocr now st) = basket st
          /\ scanError (processImage ocr now st) <> None).
Proof.
  intros [rej text]. unfold worker_calls. cbn [rejects].
  split; [|split; [|split]].
  - destruct rej as [[]|]; simpl; split; intros H; auto;
      try (intuition discriminate).
  - intros c Hc Hin. subst rej.
    simpl in Hin.
    destruct Hin as [<-|[<-|[<-|[<-|[]]]]]; simpl; split; auto;
      intuition discriminate.
  - destruct rej as [[]|]; simpl;
      [ exists [LoadLanguage; Initialize; SetParameters; Recognize; Terminate]
      | exists [Initialize; SetParameters; Recognize; Terminate]
      | exists [SetParameters; Recognize; Terminate]
      | exists [Recognize; Terminate]
      | exists [Terminate]
      | exists []
      | exists [] ]; reflexivity.
  - intros now st Hrej. subst rej.
    unfold processImage, processImage_finish. cbn [rejects].
    split; [reflexivity | discriminate].
Qed.

(** X12.  [processImage] spreads the basket of the render in which the
    capture button was pressed.  An item chosen from the catalog while
    the scan is running is therefore overwritten when the scan ends:
    the basket is the old one plus the scanned item.  Chosen after the
    scan has ended, the item stays. *)
Theorem processImage_overwrites_basket :
  forall ocr now st sample price,
    rejects ocr = None ->
    extractPrice (text_of ocr) = Some price ->
    basket (addItemToBasket sample (processImage_start st))
    = basket st ++ [sample]
    /\ basket (processImage_finish st ocr now
                 (addItemToBasket sample (processImage_start st)))
       = basket st ++ [mkItem (decimal_string now) (js "Scanned Item") price]
    /\ basket (addItemToBasket sample (processImage ocr now st))
       = basket st ++ [mkItem (decimal_string now) (js "Scanned Item") price; sample].
Proof.
  intros ocr now st sample price Hrej Hp.
  unfold processImage, processImage_finish, processImage_start.
  rewrite Hrej, Hp. split; [reflexivity|]. split; [reflexivity|].
  cbn [addItemToBasket setBasket basket setIsScanning setShowCamera setScanError].
  now rewrite <- app_assoc.
Qed.

Lemma processImage_overwrites_basket_witness :
  basket (processImage_finish
            (mkApp true [] true (Some true) false (lit 0 0) false None [] false)
            (mkOcr None (js "$4.20")) 1700000000000
            (addItemToBasket (mkItem (js "1") (js "Apple") (lit 50 (-2)))
               (processImage_start
                  (mkApp true [] true (Some true) false (lit 0 0) false None [] false))))
  = [] ++ [mkItem (js "1700000000000") (js "Scanned Item") (lit 420 (-2))].
Proof.
  apply (processImage_overwrites_basket
           (mkOcr None (js "$4.20")) 1700000000000
           (mkApp true [] true (Some true) false (lit 0 0) false None [] false)
           (mkItem (js "1") (js "Apple") (lit 50 (-2))) (lit 420 (-2)));
    vm_compute; reflexivity.
Defined.

(* ================================================================== *)
(** * The bill without a discount *)
(* ================================================================== *)

(** X13.  With a discount of 0 and a subtotal that is finite and not
    negative, the discount amount is 0, the tax is the subtotal times
    the rate and the total is the subtotal plus that tax.  With an
    infinite subtotal the discount amount, the tax and the total are
    NaN, also at discount 0. *)
Theorem totals_without_discount :
  forall rate b,
    (nonnegative (subtotal b) = true -> is_finite (subtotal b) = true ->
     discountAmount b (lit 0 0) = lit 0 0
     /\ taxAmount rate b (lit 0 0) = mul (subtotal b) rate
     /\ totalBill rate b (lit 0 0) = add (subtotal b) (mul (subtotal b) rate))
    /\ (subtotal b = S754_infinity false ->
        isNaN (discountAmount b (lit 0 0)) = true
        /\ isNaN (taxAmount rate b (lit 0 0)) = true
        /\ isNaN (totalBill rate b (lit 0 0)) = true).
Proof.
  intros rate b. unfold totalBill, taxAmount, discountAmount.
  rewrite lit_zero, lit_hundred. split.
  - intros Hn Hf.
    destruct (subtotal b) as [[]|[]| |[] m e]; try discriminate;
      conjuncts; reflexivity.
  - intros ->. conjuncts; reflexivity.
Qed.

Lemma totals_without_discount_witness :
  totalBill TAX_RATE example_basket (lit 0 0)
  = add (subtotal example_basket) (mul (subtotal example_basket) TAX_RATE).
Proof.
  apply (totals_without_discount TAX_RATE example_basket);
    vm_compute; reflexivity.
Defined.

(* ================================================================== *)
(** * A currency symbol without an amount *)
(* ================================================================== *)

Lemma currencyPass_same_groups text text' patterns :
  (forall r, In r patterns ->
             option_map groups (String_match text r)
             = option_map groups (String_match text' r)) ->
  currencyPass patterns text = currencyPass patterns text'.
Proof.
  induction patterns as [|r patterns IH]; intros H; [reflexivity|].
  assert (IH' : currencyPass patterns text = currencyPass patterns text')
    by (apply IH; intros x Hx; apply H; now right).
  specialize (H r ltac:(now left)).
  cbn [currencyPass].
  destruct (String_match text r) as [m|], (String_match text' r) as [m'|];
    simpl in H; try discriminate.
  - injection H as H. unfold group. rewrite H.
    destruct (option_map snd _) as [[|c tok]|]; try exact IH'.
    destruct (negb (isNaN (parseFloat (c :: tok)))); [reflexivity | exact IH'].
  - exact IH'.
Qed.

Lemma symbol_not_digit c : In c CURRENCY_SYMBOLS -> isDigit c = false.
Proof.
  unfold CURRENCY_SYMBOLS. simpl. intros [<-|[<-|[<-|[<-|[]]]]]; reflexivity.
Qed.

(** X14.  A currency symbol that is not followed, after optional white
    space, by a digit takes no part in the result: the text is read as
    if the symbol were not there. *)
Theorem extractPrice_skips_dangling_symbol :
  forall c body,
    In c CURRENCY_SYMBOLS ->
    price_token (snd (span isWhiteSpace body)) = None ->
    extractPrice (c :: body) = extractPrice body.
Proof.
  intros c body Hc Hnone. rewrite !extractPrice_is_currencyPass.
  apply currencyPass_same_groups. intros r Hr.
  unfold String_match.
  change (exec_from r 0 (c :: body))
    with (match match_here r 0 (c :: body) with
          | Some m => Some m
          | None => exec_from r 1 body
          end).
  replace (match_here r 0 (c :: body)) with (@None MatchResult);
    [apply exec_from_groups|].
  symmetry. apply pattern_cases in Hr as [(c' & Hc' & ->) | ->].
  - rewrite match_here_symbol. destruct (c =? c')%N; [|reflexivity].
    now rewrite Hnone.
  - rewrite match_here_amount, price_token_head_not_digit; [reflexivity|].
    now apply symbol_not_digit.
Qed.

Lemma extractPrice_skips_dangling_symbol_witness :
  extractPrice (DOLLAR :: js " off, now 5") = extractPrice (js " off, now 5").
Proof.
  apply (extractPrice_skips_dangling_symbol DOLLAR (js " off, now 5"));
    [unfold CURRENCY_SYMBOLS; simpl; tauto | reflexivity].
Defined.

(* ================================================================== *)
(** * The ids of the basket along a run of the handlers *)
(* ================================================================== *)

Section Runs.


















End Runs.


